(** * pdf_bucketing_mnbvc: the resumable scan / inspect / write pipeline

    A shallow embedding of [src/pdf_processor_v6.py] (and of the submission
    loop of [src/pdf_processor_v2.py]) together with the properties stated
    about it.  The file is organised as the program is:

    - [PyStr]      the few string functions of the Python runtime the code
                   calls ([str.strip], [os.path.normcase], [str(Path(s))]);
    - [Inspector]  [process_single_pdf];
    - [Discovery]  [find_pdf_files], and the two enumerators it drives;
    - [Csv]        the artifact, [csv.DictReader], [load_processed_csv];
    - [Writer]     [csv_writer_thread] as a sequence of file events;
    - [Pipeline]   [process_pdfs], version 6 and the submission loop of
                   version 2;
    - [Examples]   concrete hosts, trees and artifacts;
    - [Stated]     three properties as the specification states them;
    - [Derived]    notions used to state further properties;
    - [V2]         [pdf_processor_v2.py]: its inspector, [write_csv_batch]
                   and [process_pdfs];
    - [GenPdfs]    [gen_pdf/gen_pdfs.py]: [chunk_ranges], the resume plan
                   of [main], [worker_generate].

    Definitions come first, the theorems follow, one module of facts per
    component. *)

From Stdlib Require Import ZArith String Ascii List Lia Permutation.
From stdpp Require Import base gmap sets list strings pretty.

Open Scope Z_scope.

#[local] Set Warnings "-clear-no-such-hyp".

(* ===================================================================== *)
(** * Python values shared by all components *)
(* ===================================================================== *)

(** The outcome of a call that may raise.  [Err msg] stands for an instance
    of [Exception] whose [str(e)] is [msg]: what [Path.stat], [fitz.open]
    and the document properties raise ([OSError], [ValueError],
    [RuntimeError], [fitz.FileDataError], ...). *)
Inductive PyResult (A : Type) : Type :=
| Ok (a : A)
| Err (msg : string).
Arguments Ok {A} a.
Arguments Err {A} msg.

(** [platform.system()] *)
Inductive System : Type := Windows | Linux | Darwin.

Definition is_windows (s : System) : bool :=
  match s with Windows => true | _ => false end.

(* ===================================================================== *)
(** * Strings of the Python runtime *)
(* ===================================================================== *)

Module PyStr.

Definition nl : string := String (ascii_of_nat 10) EmptyString.

(** [str.isspace] on the ASCII range: TAB, LF, VT, FF, CR, the four
    separators 0x1c..0x1f and the blank. *)
Definition is_space (c : ascii) : bool :=
  let n := nat_of_ascii c in
  ((9 <=? n)%nat && (n <=? 13)%nat) || ((28 <=? n)%nat && (n <=? 32)%nat).

Fixpoint lstrip_chars (l : list ascii) : list ascii :=
  match l with
  | c :: l' => if is_space c then lstrip_chars l' else l
  | [] => []
  end.

(** [s.strip()] *)
Definition strip (s : string) : string :=
  string_of_list_ascii
    (rev (lstrip_chars (rev (lstrip_chars (list_ascii_of_string s))))).

Definition lower_char (c : ascii) : ascii :=
  let n := nat_of_ascii c in
  if (65 <=? n)%nat && (n <=? 90)%nat then ascii_of_nat (n + 32) else c.

(** [s.lower()], on ASCII letters. *)
Definition lower (s : string) : string :=
  string_of_list_ascii (map lower_char (list_ascii_of_string s)).

Definition slash : ascii := "/"%char.
Definition backslash : ascii := "\"%char.

(** [posixpath.normcase]: the identity. *)
Definition posix_normcase (s : string) : string := s.

(** [ntpath.normcase]: [s.replace('/', '\\').lower()]. *)
Definition nt_normcase (s : string) : string :=
  string_of_list_ascii
    (map (fun c => lower_char (if Ascii.eqb c slash then backslash else c))
         (list_ascii_of_string s)).

(** [os.path.normcase] of the running interpreter. *)
Definition normcase (sys : System) (s : string) : string :=
  if is_windows sys then nt_normcase s else posix_normcase s.

(** [s.split('/')] on the characters of [s]; [cur] is the component being
    read, in reverse. *)
Fixpoint split_slash (cur : list ascii) (l : list ascii) : list (list ascii) :=
  match l with
  | [] => [rev cur]
  | c :: l' =>
      if Ascii.eqb c slash then rev cur :: split_slash [] l'
      else split_slash (c :: cur) l'
  end.

Definition is_dot (comp : list ascii) : bool :=
  match comp with
  | [c] => Ascii.eqb c "."%char
  | _ => false
  end.

Definition is_empty (comp : list ascii) : bool :=
  match comp with [] => true | _ => false end.

Fixpoint join_slash (comps : list (list ascii)) : list ascii :=
  match comps with
  | [] => []
  | [c] => c
  | c :: cs => c ++ slash :: join_slash cs
  end.

(** The root [PurePosixPath] parses off the front of a path: one slash, or
    two when the path starts with exactly two. *)
Definition posix_root (l : list ascii) : list ascii :=
  match l with
  | c1 :: c2 :: c3 :: _ =>
      if Ascii.eqb c1 slash then
        if Ascii.eqb c2 slash then
          if Ascii.eqb c3 slash then [slash] else [slash; slash]
        else [slash]
      else []
  | [c1; c2] =>
      if Ascii.eqb c1 slash then
        if Ascii.eqb c2 slash then [slash; slash] else [slash]
      else []
  | [c1] => if Ascii.eqb c1 slash then [slash] else []
  | [] => []
  end.

(** [str(PurePosixPath(s))]: empty and single-dot components are dropped,
    the root is kept, and the empty path prints as a dot. *)
Definition posix_path_str (s : string) : string :=
  let l := list_ascii_of_string s in
  let root := posix_root l in
  let parts :=
    List.filter (fun c => negb (is_empty c || is_dot c)) (split_slash [] l) in
  match root, parts with
  | [], [] => "."
  | _, _ => string_of_list_ascii (root ++ join_slash parts)
  end.

Definition cr : ascii := ascii_of_nat 13.
Definition lf : ascii := ascii_of_nat 10.

(** What a file opened for reading in text mode without [newline=''] does
    to the characters it delivers: a carriage return, with the line feed
    that follows it if there is one, comes out as one line feed.
    [after_cr] tells that the character before was a carriage return. *)
Fixpoint translate_newlines (after_cr : bool) (l : list ascii) : list ascii :=
  match l with
  | [] => []
  | c :: rest =>
      if Ascii.eqb c cr then lf :: translate_newlines true rest
      else if Ascii.eqb c lf then
        if after_cr then translate_newlines false rest
        else lf :: translate_newlines false rest
      else c :: translate_newlines false rest
  end.

(** A string as it is read back from such a file. *)
Definition universal_newlines (s : string) : string :=
  string_of_list_ascii (translate_newlines false (list_ascii_of_string s)).

End PyStr.

(* ===================================================================== *)
(** * The host: everything outside the program that it calls *)
(* ===================================================================== *)

(** An open [fitz.Document].  Reading a property may raise (a damaged
    cross-reference table is found when the pages are counted). *)
Record Doc : Type := {
  doc_is_encrypted : PyResult bool;
  doc_page_count : PyResult Z
}.

(** What [subprocess.Popen(["find", root, "-type", "f", "-iname", "*.pdf"])]
    delivers: the lines read from its standard output, each with its line
    terminator, and whether the [with] block ended by an exception
    ([Popen] itself raising is [fo_lines = []] with [fo_raises = true]). *)
Record FindOutcome : Type := {
  fo_lines : list string;
  fo_raises : bool
}.

Record Host : Type := {
  (** [platform.system()] *)
  system : System;
  (** [os.cpu_count()] *)
  cpu_count : option Z;
  (** [str(Path(s))] *)
  path_str : string -> string;
  (** [Path(s).stat().st_size] *)
  stat_size : string -> PyResult Z;
  (** [fitz.open(s)] *)
  fitz_open : string -> PyResult Doc;
  (** the [find] child process started on [str(root_path)] *)
  find_cmd : string -> FindOutcome;
  (** [str(p)] for each [p] of [Path(root).rglob("*.[pP][dD][fF]")] *)
  rglob : string -> list string;
  (** whether the worker process given the task of a path is killed while
      it runs it (the PDF library brings the interpreter down, the system
      kills the process): the pool is then broken *)
  worker_dies : string -> bool
}.

(* ===================================================================== *)
(** * Inspector: [process_single_pdf] *)
(* ===================================================================== *)

Module Inspector.

Definition PAGE_COUNT_THRESHOLD : Z := 100.
Definition FILE_SIZE_THRESHOLD_BYTES : Z := 10 * 1024 * 1024.

(** The [info] dictionary; its seven keys are fixed.  [processing_time] is
    in units of 1e-4 s: version 6 leaves the initial [0.0] in place. *)
Record Info : Type := {
  file_path : string;
  file_size_bytes : Z;
  can_open : bool;
  page_count : Z;
  processing_time : Z;
  error_message : string;
  category : string
}.

(** Calls into the host, in the order they are made. *)
Inductive Call : Type :=
| CStat (p : string)
| COpen (p : string)
| CClose (p : string).

(** How a block of statements ends: by running off its end, by [return],
    or by an exception on its way up. *)
Inductive Outcome (A : Type) : Type :=
| Normal (a : A)
| Returned (r : Info)
| Raised (msg : string).
Arguments Normal {A} a.
Arguments Returned {A} r.
Arguments Raised {A} msg.

(** The function's frame: the dictionary it mutates in place and the calls
    made so far.  Both survive an exception. *)
Record Frame : Type := {
  info : Info;
  calls : list Call
}.

Definition M (A : Type) : Type := Frame -> Outcome A * Frame.

Definition ret {A : Type} (a : A) : M A := fun fr => (Normal a, fr).

Definition bind {A B : Type} (c : M A) (k : A -> M B) : M B :=
  fun fr =>
    match c fr with
    | (Normal a, fr') => k a fr'
    | (Returned r, fr') => (Returned r, fr')
    | (Raised msg, fr') => (Raised msg, fr')
    end.

Declare Scope py_scope.
Delimit Scope py_scope with py.
Notation "x <- c ;; k" := (bind c (fun x => k))
  (at level 100, c at next level, right associativity) : py_scope.
Notation "c ;; k" := (bind c (fun _ => k))
  (at level 100, right associativity) : py_scope.
Open Scope py_scope.

Definition raise {A : Type} (msg : string) : M A := fun fr => (Raised msg, fr).

(** [return info] *)
Definition return_info {A : Type} : M A := fun fr => (Returned (info fr), fr).

Definition lift {A : Type} (r : PyResult A) : M A :=
  match r with
  | Ok a => ret a
  | Err msg => raise msg
  end.

Definition get_info : M Info := fun fr => (Normal (info fr), fr).

Definition modify (f : Info -> Info) : M unit :=
  fun fr => (Normal tt, {| info := f (info fr); calls := calls fr |}).

Definition log (c : Call) : M unit :=
  fun fr => (Normal tt, {| info := info fr; calls := calls fr ++ [c] |}).

Definition set_file_size_bytes (v : Z) : M unit :=
  modify (fun i => {| file_path := file_path i; file_size_bytes := v;
                      can_open := can_open i; page_count := page_count i;
                      processing_time := processing_time i;
                      error_message := error_message i;
                      category := category i |}).

Definition set_can_open (v : bool) : M unit :=
  modify (fun i => {| file_path := file_path i;
                      file_size_bytes := file_size_bytes i;
                      can_open := v; page_count := page_count i;
                      processing_time := processing_time i;
                      error_message := error_message i;
                      category := category i |}).

Definition set_page_count (v : Z) : M unit :=
  modify (fun i => {| file_path := file_path i;
                      file_size_bytes := file_size_bytes i;
                      can_open := can_open i; page_count := v;
                      processing_time := processing_time i;
                      error_message := error_message i;
                      category := category i |}).

Definition set_error_message (v : string) : M unit :=
  modify (fun i => {| file_path := file_path i;
                      file_size_bytes := file_size_bytes i;
                      can_open := can_open i; page_count := page_count i;
                      processing_time := processing_time i;
                      error_message := v;
                      category := category i |}).

Definition set_category (v : string) : M unit :=
  modify (fun i => {| file_path := file_path i;
                      file_size_bytes := file_size_bytes i;
                      can_open := can_open i; page_count := page_count i;
                      processing_time := processing_time i;
                      error_message := error_message i;
                      category := v |}).

(** [with fitz.open(p) as doc: body]: the document is closed on every way
    out of the body; if the open raises there is nothing to close.  The
    release itself does not raise ([Document.close] only objects to a
    document that is closed already). *)
Definition with_open {A : Type} (h : Host) (p : string) (body : Doc -> M A)
  : M A :=
  fun fr =>
    match (log (COpen p) ;; lift (fitz_open h p)) fr with
    | (Normal doc, fr1) =>
        let '(o, fr2) := body doc fr1 in
        (o, {| info := info fr2; calls := calls fr2 ++ [CClose p] |})
    | (Returned r, fr1) => (Returned r, fr1)
    | (Raised msg, fr1) => (Raised msg, fr1)
    end.

(** [try: body except Exception as e: handler(str(e))] *)
Definition try_except {A : Type} (body : M A) (handler : string -> M A)
  : M A :=
  fun fr =>
    match body fr with
    | (Raised msg, fr') => handler msg fr'
    | other => other
    end.

Definition initial_info (path : string) : Info :=
  {| file_path := path; file_size_bytes := 0; can_open := false;
     page_count := 0; processing_time := 0; error_message := "";
     category := "N/A" |}.

(** Lines 51-69: the body of the [try]. *)
Definition try_body (h : Host) (pdf_path : string) : M unit :=
  size <- (log (CStat pdf_path) ;; lift (stat_size h pdf_path)) ;;
  set_file_size_bytes size ;;
  if size <? 100 then
    set_error_message "too small" ;;
    return_info
  else
    with_open h pdf_path (fun doc =>
      enc <- lift (doc_is_encrypted doc) ;;
      if (enc : bool) then
        set_error_message "encrypted"
      else
        pc <- lift (doc_page_count doc) ;;
        set_page_count pc ;;
        set_can_open true ;;
        i <- get_info ;;
        let page_cat :=
          if page_count i >? PAGE_COUNT_THRESHOLD then "L" else "S" in
        let size_cat :=
          if size >? FILE_SIZE_THRESHOLD_BYTES then "L" else "S" in
        set_category (page_cat +:+ "-" +:+ size_cat)).

(** [process_single_pdf(pdf_path_str)], with the calls it made.  The
    [finally] clause of version 6 is [pass]. *)
Definition run_single_pdf (h : Host) (pdf_path_str : string)
  : PyResult Info * list Call :=
  let pdf_path := path_str h pdf_path_str in
  let fr0 := {| info := initial_info pdf_path; calls := [] |} in
  match try_except (try_body h pdf_path)
                   (fun msg => set_error_message msg) fr0 with
  | (Normal _, fr) => (Ok (info fr), calls fr)
  | (Returned r, fr) => (Ok r, calls fr)
  | (Raised msg, fr) => (Err msg, calls fr)
  end.

Definition process_single_pdf (h : Host) (pdf_path_str : string)
  : PyResult Info :=
  fst (run_single_pdf h pdf_path_str).

(** The calls that open a document. *)
Definition opens (c : Call) : bool :=
  match c with COpen _ => true | _ => false end.

(** The classification as the specification words it. *)
Definition spec_page_class (pages : Z) : string :=
  if 100 <? pages then "L" else "S".

Definition spec_size_class (bytes : Z) : string :=
  if 10 * 1024 * 1024 <? bytes then "L" else "S".

Definition spec_category (pages bytes : Z) : string :=
  spec_page_class pages +:+ "-" +:+ spec_size_class bytes.

(** [process_single_pdf] by cases on what the host answers: the function
    the monadic body computes. *)
Definition inspect_cases (h : Host) (pdf_path_str : string)
  : PyResult Info * list Call :=
  let q := path_str h pdf_path_str in
  let base sz e :=
    {| file_path := q; file_size_bytes := sz; can_open := false;
       page_count := 0; processing_time := 0; error_message := e;
       category := "N/A" |} in
  match stat_size h q with
  | Err m => (Ok (base 0 m), [CStat q])
  | Ok sz =>
      if sz <? 100 then (Ok (base sz "too small"), [CStat q])
      else
        match fitz_open h q with
        | Err m => (Ok (base sz m), [CStat q; COpen q])
        | Ok doc =>
            match doc_is_encrypted doc with
            | Err m => (Ok (base sz m), [CStat q; COpen q; CClose q])
            | Ok true =>
                (Ok (base sz "encrypted"), [CStat q; COpen q; CClose q])
            | Ok false =>
                match doc_page_count doc with
                | Err m => (Ok (base sz m), [CStat q; COpen q; CClose q])
                | Ok pc =>
                    (Ok {| file_path := q; file_size_bytes := sz;
                           can_open := true; page_count := pc;
                           processing_time := 0; error_message := "";
                           category :=
                             (if pc >? PAGE_COUNT_THRESHOLD then "L" else "S")
                             +:+ "-"
                             +:+ (if sz >? FILE_SIZE_THRESHOLD_BYTES
                                  then "L" else "S") |},
                     [CStat q; COpen q; CClose q])
                end
            end
        end
  end.

End Inspector.

(* ===================================================================== *)
(** * Discoverer: [find_pdf_files] *)
(* ===================================================================== *)

Module Discovery.

Import PyStr.

(** The loop over [root_path.rglob(...)] (lines 89-94 and 114-119): each
    element is [str(pdf_path)]. *)
Fixpoint rglob_loop (sys : System) (seen : gset string) (paths : list string)
  : list string * gset string :=
  match paths with
  | [] => ([], seen)
  | pdf_path :: rest =>
      let norm := normcase sys pdf_path in
      if bool_decide (norm ∈ seen) then rglob_loop sys seen rest
      else
        let '(ys, seen') := rglob_loop sys ({[norm]} ∪ seen) rest in
        (pdf_path :: ys, seen')
  end.

(** The loop over [proc.stdout] (lines 103-111). *)
Fixpoint find_loop (sys : System) (seen : gset string) (lines : list string)
  : list string * gset string :=
  match lines with
  | [] => ([], seen)
  | line :: rest =>
      let path := strip line in
      if String.eqb path "" then find_loop sys seen rest
      else
        let norm := normcase sys path in
        if bool_decide (norm ∈ seen) then find_loop sys seen rest
        else
          let '(ys, seen') := find_loop sys ({[norm]} ∪ seen) rest in
          (path :: ys, seen')
  end.

(** [find_pdf_files(root_path)]: the strings the generator yields, in
    order.  [seen] is one set for the whole call, so the fallback after a
    failed [find] continues with what [find] had already delivered. *)
Definition find_pdf_files (h : Host) (root_path : string) : list string :=
  let root := path_str h root_path in
  if is_windows (system h) then
    fst (rglob_loop (system h) ∅ (rglob h root))
  else
    let out := find_cmd h root in
    let '(ys, seen) := find_loop (system h) ∅ (fo_lines out) in
    if fo_raises out then
      ys ++ fst (rglob_loop (system h) seen (rglob h root))
    else ys.

(** The set of normalized identities of a scan. *)
Definition identities (sys : System) (paths : list string) : gset string :=
  list_to_set (map (normcase sys) paths).

(** ** The two enumerators on a directory tree

    What the host's [find] and [rglob] deliver is fixed by the tree they
    walk.  A tree is the content of the root directory. *)
#[warnings="-register-all"]
Inductive Node : Type :=
| File (name : string) (size : Z) (content : PyResult Doc)
| Link (name : string)
| Dir (name : string) (children : list Node).

Definition node_name (n : Node) : string :=
  match n with
  | File name _ _ => name
  | Link name => name
  | Dir name _ => name
  end.

Definition last4 (s : string) : list ascii :=
  let l := list_ascii_of_string s in
  skipn (List.length l - 4) l.

(** [-iname "*.pdf"]: the name ends in [.pdf], letters compared without
    case. *)
Definition iname_pdf (name : string) : bool :=
  String.eqb (string_of_list_ascii (map lower_char (last4 name))) ".pdf".

(** The glob [*.[pP][dD][fF]]. *)
Definition glob_pdf (name : string) : bool :=
  match last4 name with
  | [c1; c2; c3; c4] =>
      Ascii.eqb c1 "."%char
      && (Ascii.eqb c2 "p"%char || Ascii.eqb c2 "P"%char)
      && (Ascii.eqb c3 "d"%char || Ascii.eqb c3 "D"%char)
      && (Ascii.eqb c4 "f"%char || Ascii.eqb c4 "F"%char)
  | _ => false
  end.

Definition ends_with_slash (s : string) : bool :=
  match rev (list_ascii_of_string s) with
  | c :: _ => Ascii.eqb c slash
  | [] => false
  end.

(** How [find] prints an entry below a directory it has printed as [dir]. *)
Definition find_join (dir name : string) : string :=
  if ends_with_slash dir then dir +:+ name else dir +:+ "/" +:+ name.

(** [find dir -type f -iname "*.pdf"] on one entry of [dir]: regular files
    only; symbolic links are not followed and are not of type [f]. *)
Fixpoint find_walk (dir : string) (n : Node) : list string :=
  match n with
  | File name _ _ =>
      if iname_pdf name then [find_join dir name +:+ nl] else []
  | Link _ => []
  | Dir name children =>
      List.flat_map (find_walk (find_join dir name)) children
  end.

Definition find_output (root : string) (tree : list Node) : list string :=
  List.flat_map (find_walk root) tree.

(** [str(Path(dir) / name)] *)
Definition pathlib_join (dir name : string) : string :=
  posix_path_str (find_join dir name).

(** [Path(dir).rglob("*.[pP][dD][fF]")] on one entry of [dir]: every entry
    whose name matches, whatever its type, and the content of the
    directories. *)
Fixpoint rglob_walk (dir : string) (n : Node) : list string :=
  (if glob_pdf (node_name n) then [pathlib_join dir (node_name n)] else [])
  ++ match n with
     | Dir name children =>
         List.flat_map (rglob_walk (pathlib_join dir name)) children
     | _ => []
     end.

Definition rglob_output (root : string) (tree : list Node) : list string :=
  List.flat_map (rglob_walk root) tree.

(** The regular files of the tree under the names [pathlib] gives them,
    with what [stat] and [fitz.open] find there. *)
Fixpoint files_walk (dir : string) (n : Node)
  : list (string * (Z * PyResult Doc)) :=
  match n with
  | File name size content => [(pathlib_join dir name, (size, content))]
  | Link _ => []
  | Dir name children =>
      List.flat_map (files_walk (pathlib_join dir name)) children
  end.

Fixpoint assoc {A : Type} (k : string) (l : list (string * A)) : option A :=
  match l with
  | [] => None
  | (k', v) :: rest => if String.eqb k k' then Some v else assoc k rest
  end.

(** A POSIX host whose file system holds [tree] in the directory [root_dir]
    (a path as [pathlib] prints it); [has_find] tells whether the [find]
    program can be started.  No worker process dies on it. *)
Definition posix_host (root_dir : string) (tree : list Node) (has_find : bool)
  : Host :=
  let files := List.flat_map (files_walk root_dir) tree in
  {| system := Linux;
     cpu_count := Some 4;
     path_str := posix_path_str;
     stat_size := fun p =>
       match assoc p files with
       | Some (size, _) => Ok size
       | None => Err "[Errno 2] No such file or directory"
       end;
     fitz_open := fun p =>
       match assoc p files with
       | Some (_, content) => content
       | None => Err "no such file"
       end;
     find_cmd := fun root =>
       if has_find then
         {| fo_lines := if String.eqb root root_dir
                        then find_output root tree else [];
            fo_raises := false |}
       else {| fo_lines := []; fo_raises := true |};
     rglob := fun root =>
       if String.eqb root root_dir then rglob_output root tree else [];
     worker_dies := fun _ => false |}.

End Discovery.

(* ===================================================================== *)
(** * The artifact and the ledger: [load_processed_csv] *)
(* ===================================================================== *)

Module Csv.

(** One stretch of the CSV file.

    [Rec fields] is a record as [writerow(fields)] puts it in the file,
    quoted where it has to be.

    [Bad msg lost] is a place where reading the file raises an exception
    that prints as [msg].  [lost] is the number of records before that
    place which the reader has not delivered when the exception comes.  It
    is 0 when the [csv] reader itself raises at the record it is parsing.
    It is not when the bytes do not decode: the text layer decodes the file
    a block of 8 KiB at a time, ahead of the reader, and the exception
    comes when the block is decoded, so the records of that block that
    stand before the bytes are never delivered (in a file shorter than a
    block, none is, the header included). *)
Inductive Line : Type :=
| Rec (fields : list string)
| Bad (msg : string) (lost : nat).

(** The artifact on disk: [None] when the file does not exist. *)
Definition Artifact : Type := option (list Line).

(** The dictionary [csv.DictReader] builds for a row:
    [dict(zip(fieldnames, row))], then [restval = None] under each field
    name the row is too short for.  Later assignments to a key win. *)
Definition row_dict (fieldnames row : list string)
  : gmap string (option string) :=
  let zipped :=
    fold_left (fun d kv => <[fst kv := Some (snd kv)]> d)
              (zip fieldnames row) (∅ : gmap string (option string)) in
  fold_left (fun d k => <[k := None]> d)
            (skipn (List.length row) fieldnames) zipped.

(** [row.get("file_path")] *)
Definition row_get (d : gmap string (option string)) (key : string)
  : option string :=
  match d !! key with
  | Some (Some v) => Some v
  | _ => None
  end.

(** [if p:] *)
Definition truthy (p : option string) : bool :=
  match p with
  | Some s => negb (String.eqb s "")
  | None => false
  end.

(** [csv.field_size_limit()] *)
Definition FIELD_SIZE_LIMIT : Z := 131072.

(** The fields of a record as the reader of line 129 gets them: line 128
    opens the file without [newline=''], so the characters go through the
    translation of line ends, inside quoted fields too. *)
Definition read_fields (fields : list string) : list string :=
  map PyStr.universal_newlines fields.

(** The reader raises [_csv.Error] on a field longer than the limit. *)
Definition too_long (row : list string) : bool :=
  existsb (fun f => FIELD_SIZE_LIMIT <? Z.of_nat (String.length f)) row.

Definition field_limit_error : string :=
  "field larger than field limit (131072)".

(** The records parsed from the file up to the first place where reading
    raises, and what is known of that place. *)
Fixpoint parse (lines : list Line)
  : list (list string) * option (string * nat) :=
  match lines with
  | [] => ([], None)
  | Bad msg lost :: _ => ([], Some (msg, lost))
  | Rec fields :: rest =>
      let row := read_fields fields in
      if too_long row then ([], Some (field_limit_error, 0%nat))
      else
        let '(rows, raised) := parse rest in
        (row :: rows, raised)
  end.

(** What iterating over [csv.reader(f)] delivers, and the message of the
    exception that ends the iteration, if one does. *)
Definition reader_rows (lines : list Line)
  : list (list string) * option string :=
  match parse lines with
  | (rows, None) => (rows, None)
  | (rows, Some (msg, lost)) =>
      (firstn (List.length rows - lost)%nat rows, Some msg)
  end.

(** The [for row in reader] loop of lines 130-134 over the rows delivered
    below the first one.  [processed] is filled in place, so what was added
    before an exception stays.  The reader passes over blank records. *)
Fixpoint load_loop (sys : System) (fieldnames : list string)
  (processed : gset string) (rows : list (list string)) : gset string :=
  match rows with
  | [] => processed
  | [] :: rest => load_loop sys fieldnames processed rest
  | row :: rest =>
      let p := row_get (row_dict fieldnames row) "file_path" in
      if truthy p then
        load_loop sys fieldnames
          ({[PyStr.normcase sys (default "" p)]} ∪ processed) rest
      else load_loop sys fieldnames processed rest
  end.

Inductive LogRecord : Type :=
| LogLoaded (count : nat)
| LogWarning (msg : string).

(** [load_processed_csv(csv_file)] and what it logs.  The first row
    delivered is the reader's [fieldnames]. *)
Definition load_processed_csv (sys : System) (csv_file : Artifact)
  : gset string * list LogRecord :=
  match csv_file with
  | None => (∅, [])
  | Some lines =>
      let '(rows, raised) := reader_rows lines in
      let processed :=
        match rows with
        | [] => ∅
        | fieldnames :: rest => load_loop sys fieldnames ∅ rest
        end in
      match raised with
      | None => (processed, [LogLoaded (size processed)])
      | Some msg => (processed, [LogWarning msg])
      end
  end.

(** The identity a record carries under the header the writer emits, as
    written: its first field, when there is one and it is not empty. *)
Definition record_identity (sys : System) (l : Line) : option string :=
  match l with
  | Rec (p :: _) => if String.eqb p "" then None else Some (PyStr.normcase sys p)
  | _ => None
  end.

(** The identity the load takes from that record: its first field as it is
    read back. *)
Definition loaded_identity (sys : System) (l : Line) : option string :=
  match l with
  | Rec (p :: _) =>
      let q := PyStr.universal_newlines p in
      if String.eqb q "" then None else Some (PyStr.normcase sys q)
  | _ => None
  end.

(** A record the reader parses: no field of it is over the limit. *)
Definition readable (l : Line) : Prop :=
  match l with
  | Rec fields => too_long (read_fields fields) = false
  | Bad _ _ => False
  end.

(** The row the reader makes of it. *)
Definition row_of (l : Line) : list string :=
  match l with
  | Rec fields => read_fields fields
  | Bad _ _ => []
  end.

End Csv.

(* ===================================================================== *)
(** * Report writer: [csv_writer_thread] *)
(* ===================================================================== *)

Module Writer.

Import Inspector Csv.

Definition header : list string :=
  ["file_path"; "file_size_bytes"; "can_open"; "page_count";
   "processing_time"; "error_message"; "category"].

(** [str(True)], [str(False)] *)
Definition bool_str (b : bool) : string := if b then "True" else "False".

(** How [csv] prints the [processing_time] float; [0.0] is the only value
    version 6 produces. *)
Definition time_str (t : Z) : string :=
  if t =? 0 then "0.0" else pretty t +:+ "e-04".

(** The list handed to [writer.writerow] at lines 156-164. *)
Definition row_fields (row : Info) : list string :=
  [file_path row; pretty (file_size_bytes row); bool_str (can_open row);
   pretty (page_count row); time_str (processing_time row);
   error_message row; category row].

(** What the thread does to the queue and to the file, in order.  [EFlush]
    is [f.flush()]; it is part of the vocabulary of file operations. *)
Inductive Event : Type :=
| EExists (found : bool)
| EOpenAppend
| EWriteRow (fields : list string)
| EGet (item : option (list Info))
| ETaskDone
| EFlush
| EClose.

(** The [while True] loop, lines 150-165.  [items] is what successive
    [queue.get()] calls return; when they run out before a [None] the
    thread stays blocked in [get] ([false]). *)
Fixpoint writer_loop (items : list (option (list Info)))
  : list Event * bool :=
  match items with
  | [] => ([], false)
  | None :: _ => ([EGet None], true)
  | Some rows :: rest =>
      let '(evs, finished) := writer_loop rest in
      (EGet (Some rows)
         :: map (fun row => EWriteRow (row_fields row)) rows
         ++ ETaskDone :: evs,
       finished)
  end.

(** [csv_writer_thread(csv_file, queue)]: the events, and whether the
    thread returned.  The [with] block closes the file when the loop is
    left. *)
Definition csv_writer_thread (csv_file : Artifact)
  (items : list (option (list Info))) : list Event * bool :=
  let file_exists := bool_decide (is_Some csv_file) in
  let '(evs, finished) := writer_loop items in
  (EExists file_exists :: EOpenAppend
     :: (if file_exists then [] else [EWriteRow header])
     ++ evs ++ (if finished then [EClose] else []),
   finished).

(** ** The file under these events

    A file opened for appending is created if missing; rows written go to
    the handle's buffer and reach the disk when the buffer is flushed: by
    [flush], by [close], or by the runtime when it sees fit.  Opening and
    writing are taken to succeed: the path can be written, the disk has
    room, and the text of the rows encodes in UTF-8. *)
Record FileState : Type := {
  disk : Artifact;
  buffer : list Line
}.

Definition existing (a : Artifact) : list Line := default [] a.

Definition file_step (fs : FileState) (e : Event) : FileState :=
  match e with
  | EOpenAppend => {| disk := Some (existing (disk fs)); buffer := [] |}
  | EWriteRow fields =>
      {| disk := disk fs; buffer := buffer fs ++ [Rec fields] |}
  | EFlush | EClose =>
      {| disk := Some (existing (disk fs) ++ buffer fs); buffer := [] |}
  | EExists _ | EGet _ | ETaskDone => fs
  end.

Definition run_events (csv_file : Artifact) (evs : list Event) : FileState :=
  fold_left file_step evs {| disk := csv_file; buffer := [] |}.

(** The artifact once the thread has run all of [evs]. *)
Definition artifact_after (csv_file : Artifact) (evs : list Event)
  : Artifact :=
  disk (run_events csv_file evs).

(** The artifact after the process is killed when the thread has done the
    first [k] of its events, the runtime having by then moved the first [j]
    buffered rows to the disk on its own. *)
Definition artifact_after_kill (csv_file : Artifact) (evs : list Event)
  (k j : nat) : Artifact :=
  let fs := run_events csv_file (firstn k evs) in
  match disk fs with
  | None => None
  | Some lines => Some (lines ++ firstn j (buffer fs))
  end.

(** The rows known to be on disk after the first [k] events whatever the
    runtime did: those moved there by a [flush] or a [close]. *)
Definition durable_after (csv_file : Artifact) (evs : list Event) (k : nat)
  : Artifact :=
  artifact_after_kill csv_file evs k 0.

(** "Flush before requesting the next batch", read on the events: the rows
    of a batch are flushed before the next [get].  [in_batch] tells whether
    a batch has been received, [dirty] whether a row of a batch has been
    written since the last flush. *)
Fixpoint flushed_before_get (in_batch dirty : bool) (evs : list Event)
  : bool :=
  match evs with
  | [] => true
  | EWriteRow _ :: rest => flushed_before_get in_batch in_batch rest
  | (EFlush | EClose) :: rest => flushed_before_get in_batch false rest
  | EGet item :: rest =>
      negb dirty
      && flushed_before_get (in_batch || bool_decide (is_Some item)) dirty rest
  | _ :: rest => flushed_before_get in_batch dirty rest
  end.

Definition is_header (l : Line) : bool :=
  match l with
  | Rec fields => bool_decide (fields = header)
  | Bad _ _ => false
  end.

(** Number of header rows in the artifact. *)
Definition header_count (a : Artifact) : nat :=
  List.length (List.filter is_header (existing a)).

(** Exactly one header row, and it is the first row. *)
Definition header_once (a : Artifact) : Prop :=
  exists rows, a = Some (Rec header :: rows) /\ header_count (Some rows) = 0%nat.

(** The events of one turn of the loop on a batch [rows]. *)
Definition batch_events (rows : list Info) : list Event :=
  EGet (Some rows)
    :: map (fun row => EWriteRow (row_fields row)) rows ++ [ETaskDone].

(** The header, when the writer found no file. *)
Definition header_if_new (csv_file : Artifact) : list (list string) :=
  if bool_decide (is_Some csv_file) then [] else [header].

(** The records handed to [writerow] in a sequence of events. *)
Fixpoint rows_written (evs : list Event) : list Line :=
  match evs with
  | [] => []
  | EWriteRow fields :: rest => Rec fields :: rows_written rest
  | _ :: rest => rows_written rest
  end.

(** A row that is not a header row. *)
Definition plain (l : Line) : Prop := is_header l = false.

Definition is_flush (e : Event) : bool :=
  match e with EFlush => true | _ => false end.

(** Events that leave the disk alone. *)
Definition quiet (e : Event) : bool :=
  match e with
  | EOpenAppend | EFlush | EClose => false
  | _ => true
  end.

Definition rendered (rows : list Info) : list Line :=
  map (fun row => Rec (row_fields row)) rows.

End Writer.

(* ===================================================================== *)
(** * The pipeline: [process_pdfs] *)
(* ===================================================================== *)

Module Pipeline.

Import Inspector Discovery Csv Writer.

Definition BATCH_WRITE_SIZE : nat := 1000.

(** [workers or (os.cpu_count() or 4)]: [None] and [0] are false. *)
Definition py_or (a : option Z) (b : Z) : Z :=
  match a with
  | Some v => if v =? 0 then b else v
  | None => b
  end.

Definition effective_workers (h : Host) (workers : option Z) : Z :=
  py_or workers (py_or (cpu_count h) 4).

(** What happens to the pool: a task is submitted, or the result of a task
    is taken from [as_completed]. *)
Inductive PoolEvent : Type :=
| Submit (p : string)
| Consume (p : string).

(** Tasks submitted and not yet consumed after each event, and the largest
    such number over the run. *)
Fixpoint peak_in_flight (current : nat) (evs : list PoolEvent) : nat :=
  match evs with
  | [] => current
  | Submit _ :: rest => Nat.max current (peak_in_flight (S current) rest)
  | Consume _ :: rest => Nat.max current (peak_in_flight (pred current) rest)
  end.

(** [stats] *)
Record Stats : Type := {
  processed : Z;
  category_counts : gmap string Z
}.

Definition initial_stats : Stats :=
  {| processed := 0;
     category_counts :=
       <["S-S" := 0]> (<["S-L" := 0]> (<["L-S" := 0]> (<["L-L" := 0]>
         (<["N/A" := 0]> ∅)))) |}.

(** Lines 203-205. *)
Definition update_stats (st : Stats) (res : Info) : Stats :=
  let counts :=
    match category_counts st !! category res with
    | Some _ => category_counts st
    | None => <[category res := 0]> (category_counts st)
    end in
  {| processed := processed st + 1;
     category_counts :=
       <[category res := default 0 (counts !! category res) + 1]> counts |}.

(** The aggregator between two results: the batch being filled, the batches
    put on the queue so far, the statistics. *)
Record Aggregator : Type := {
  batch_rows : list Info;
  queue : list (option (list Info));
  stats : Stats
}.

(** The body of the [for fut in as_completed(futures)] loop, lines
    199-210. *)
Definition aggregate (a : Aggregator) (res : Info) : Aggregator :=
  let rows := batch_rows a ++ [res] in
  let st := update_stats (stats a) res in
  if (BATCH_WRITE_SIZE <=? List.length rows)%nat then
    {| batch_rows := []; queue := queue a ++ [Some rows]; stats := st |}
  else
    {| batch_rows := rows; queue := queue a; stats := st |}.

(** Lines 220-225: the last partial batch, then the sentinel.  The bound
    of the queue ([CSV_QUEUE_MAXSIZE]) makes [put] wait for the writer; it
    does not change what the writer is handed, nor in which order. *)
Definition final_queue (a : Aggregator) : list (option (list Info)) :=
  queue a
  ++ (match batch_rows a with [] => [] | _ => [Some (batch_rows a)] end)
  ++ [None].

(** [ProcessPoolExecutor(max_workers=n)], line 192: what the constructor
    raises.  It is [ValueError] for a number of workers that is not
    positive and, on Windows, for one above 61; the queue of calls it then
    builds has room for [n + 1] of them, counted by a semaphore whose value
    is a C [int], and a number that does not fit raises [OverflowError]. *)
Definition pool_error (sys : System) (n : Z) : option string :=
  if n <=? 0 then Some "max_workers must be greater than 0"
  else if is_windows sys && (61 <? n) then Some "max_workers must be <= 61"
  else if 2 ^ 31 - 1 <? n + 1 then
    Some "Python int too large to convert to C int"
  else None.

(** What [BrokenProcessPool] prints. *)
Definition broken_pool : string :=
  "A process in the process pool was terminated abruptly while the future was running or pending.".

(** [fut.result()] for each future in the order [as_completed] yields
    them; an exception of a task is re-raised there.  When the worker of a
    task dies the pool is broken: the future of that task, and every
    future not yet done, raises [BrokenProcessPool], which ends the loop. *)
Fixpoint results (h : Host) (order : list string) : PyResult (list Info) :=
  match order with
  | [] => Ok []
  | p :: rest =>
      if worker_dies h p then Err broken_pool
      else
        match process_single_pdf h p with
        | Err msg => Err msg
        | Ok res =>
            match results h rest with
            | Err msg => Err msg
            | Ok more => Ok (res :: more)
            end
        end
  end.

(** The generator of line 190. *)
Definition pdf_gen (h : Host) (root_path : string) (ledger : gset string)
  : list string :=
  List.filter
    (fun p => negb (bool_decide (PyStr.normcase (system h) p ∈ ledger)))
    (find_pdf_files h root_path).

(** Line 194, then the loop of line 198: the comprehension runs the
    generator to its end, submitting as it goes; only then are results
    taken. *)
Definition pool_events (submitted order : list string) : list PoolEvent :=
  map Submit submitted ++ map Consume order.

Record Run : Type := {
  run_ledger : gset string;
  run_log : list LogRecord;
  run_pool : list PoolEvent;
  run_stats : Stats;
  run_writer : list Event;
  run_artifact : Artifact
}.

(** [process_pdfs(root_path, csv_file, workers, resume)], lines 171-227.

    [Ok run] is the run at line 227, the writer thread joined: nothing
    after that line touches the pool, the queue or the artifact.  What
    follows, lines 230-238, logs the summary from [run_stats]; the division
    of line 234 raises [ZeroDivisionError] there when the clock has not
    moved since line 179, the artifact being what it was at line 227.

    [Err msg] is an exception that leaves the function before line 227.
    The pool is built at line 192, after the writer thread has been started
    at line 185: when the constructor refuses the number of workers, the
    thread, a daemon, ends with the process somewhere in
    [fst (csv_writer_thread csv_file [])], see [left_by_refusal].  A broken
    pool or an exception of a task comes out of [fut.result()] at line 199.

    [completion] gives the order in which the tasks handed to the pool
    complete.  A task that never completes is in no such order, and the
    loop of line 198 then waits for it for ever: the function describes the
    runs in which every task ends, which is what [fair] says of
    [completion]. *)
Definition process_pdfs (h : Host) (completion : list string -> list string)
  (root_path : string) (csv_file : Artifact) (workers : option Z)
  (resume : bool) : PyResult Run :=
  let n := effective_workers h workers in
  let '(ledger, log) :=
    if resume then load_processed_csv (system h) csv_file else (∅, []) in
  match pool_error (system h) n with
  | Some msg => Err msg
  | None =>
    let submitted := pdf_gen h root_path ledger in
    let order := completion submitted in
    match results h order with
    | Err msg => Err msg
    | Ok rs =>
        let agg :=
          fold_left aggregate rs
            {| batch_rows := []; queue := []; stats := initial_stats |} in
        let '(evs, _) := csv_writer_thread csv_file (final_queue agg) in
        Ok {| run_ledger := ledger;
              run_log := log;
              run_pool := pool_events submitted order;
              run_stats := stats agg;
              run_writer := evs;
              run_artifact := artifact_after csv_file evs |}
    end
  end.

(** What is on disk once the process has ended on the pool's refusal.  The
    writer thread had by then done the first [k] events of
    [csv_writer_thread csv_file []]: nothing, or the file opened (and so
    created when it was missing), or the header put in the buffer as well;
    it never gets an item.  [j] is as in [artifact_after_kill]. *)
Definition left_by_refusal (csv_file : Artifact) (k j : nat) : Artifact :=
  artifact_after_kill csv_file (fst (csv_writer_thread csv_file [])) k j.

(** The rows of the artifact below its first record. *)
Definition data_rows (a : Artifact) : list Line := tail (existing a).

(** The identities recorded in the artifact, one per data row, with
    repetitions. *)
Definition recorded (sys : System) (a : Artifact) : list string :=
  omap (record_identity sys) (data_rows a).

(** ** Version 2: the submission loop of lines 163-198

    Paths are gathered in [pdf_batch]; when it holds [batch_size] of them
    they are submitted together and all their results are taken before the
    generator is asked for the next path. *)
Fixpoint v2_pool_events (completion : list string -> list string)
  (batch_size : nat) (pdf_batch : list string) (gen : list string)
  : list PoolEvent :=
  match gen with
  | [] => pool_events pdf_batch (completion pdf_batch)
  | pdf :: rest =>
      let pdf_batch := pdf_batch ++ [pdf] in
      if (batch_size <=? List.length pdf_batch)%nat then
        pool_events pdf_batch (completion pdf_batch)
        ++ v2_pool_events completion batch_size [] rest
      else v2_pool_events completion batch_size pdf_batch rest
  end.

(** [batch_size = workers * 10] *)
Definition v2_batch_size (workers : Z) : nat := Z.to_nat (workers * 10).

(** What is known of [as_completed]: every task submitted is delivered,
    once, in some order. *)
Definition fair (completion : list string -> list string) : Prop :=
  forall l, Permutation (completion l) l.

(** ** Sequences of runs on one artifact

    A run either reaches its end, or the process is killed while the writer
    thread is somewhere in the events it would have gone through.  A kill
    that leaves the file created and empty is told apart: the header was
    still in the buffer. *)
Inductive outcome_kind : Type := Finished | Killed.

Inductive run_step : Artifact -> outcome_kind -> Artifact -> Prop :=
| step_finished h completion root csv_file workers resume run :
    process_pdfs h completion root csv_file workers resume = Ok run ->
    run_step csv_file Finished (run_artifact run)
| step_killed h completion root csv_file workers resume run k j :
    process_pdfs h completion root csv_file workers resume = Ok run ->
    run_step csv_file Killed
             (artifact_after_kill csv_file (run_writer run) k j).

(** The artifacts reachable from no artifact by any sequence of runs. *)
Inductive reachable : Artifact -> Prop :=
| reach_start : reachable None
| reach_step a kind b : reachable a -> run_step a kind b -> reachable b.

(** The same, where no kill leaves behind a file that is empty. *)
Inductive reachable_headed : Artifact -> Prop :=
| headed_start : reachable_headed None
| headed_step a kind b :
    reachable_headed a -> run_step a kind b -> b <> Some [] ->
    reachable_headed b.

End Pipeline.

(* ===================================================================== *)
(** * Concrete hosts and inputs used by the examples below *)
(* ===================================================================== *)

Module Examples.

Import Inspector Discovery Csv Writer Pipeline.

Definition plain_doc (pages : Z) : PyResult Doc :=
  Ok {| doc_is_encrypted := Ok false; doc_page_count := Ok pages |}.

Definition locked_doc : PyResult Doc :=
  Ok {| doc_is_encrypted := Ok true; doc_page_count := Ok 3 |}.

(** A directory holding one file of each kind the inspector tells apart. *)
Definition corpus : list Node :=
  [ File "edge.pdf" (10 * 1024 * 1024) (plain_doc 100);
    File "tiny.pdf" 99 (plain_doc 1);
    File "locked.pdf" 4096 locked_doc;
    File "broken.pdf" 4096 (Err "cannot open broken document");
    File "big.pdf" (10 * 1024 * 1024 + 1) (plain_doc 101) ].

Definition corpus_host : Host := posix_host "/data" corpus true.

(** Two results, as the inspector returns them. *)
Definition row_a : Info :=
  {| file_path := "/data/a.pdf"; file_size_bytes := 2048; can_open := true;
     page_count := 5; processing_time := 0; error_message := "";
     category := "S-S" |}.

Definition row_b : Info :=
  {| file_path := "/data/b.pdf"; file_size_bytes := 99; can_open := false;
     page_count := 0; processing_time := 0; error_message := "too small";
     category := "N/A" |}.

(** One PDF in the current directory, scanned as [.]. *)
Definition dot_tree : list Node := [File "a.pdf" 2048 (plain_doc 5)].
Definition dot_host : Host := posix_host "." dot_tree true.

(** The same file under [/data]. *)
Definition data_host : Host := posix_host "/data" dot_tree true.

(** A directory whose name ends in [.pdf], holding a scanned page. *)
Definition scans_tree : list Node :=
  [Dir "scans.pdf" [File "page1.png" 5000 (Err "not a PDF")]].

(** An artifact with, between two good rows, a record that has a field
    over the limit of the reader. *)
Definition damaged : Artifact :=
  Some [Rec header; Rec (row_fields row_a); Bad field_limit_error 0;
        Rec (row_fields row_b)].

(** A short artifact with, between the same two rows, a byte that is not
    UTF-8: header and first row are in the block that fails to decode. *)
Definition garbled : Artifact :=
  Some [Rec header; Rec (row_fields row_a);
        Bad "'utf-8' codec can't decode byte 0xff in position 120: invalid start byte" 2;
        Rec (row_fields row_b)].

(** A Windows machine with 64 processors, scanning an empty directory. *)
Definition big_windows_host : Host :=
  {| system := Windows;
     cpu_count := Some 64;
     path_str := fun s => s;
     stat_size := fun _ => Err "[WinError 2] The system cannot find the file specified";
     fitz_open := fun _ => Err "no such file";
     find_cmd := fun _ => {| fo_lines := []; fo_raises := true |};
     rglob := fun _ => [];
     worker_dies := fun _ => false |}.

(** Eleven PDFs in one directory. *)
Definition eleven : list Node :=
  map (fun n => File (pretty n +:+ ".pdf") 2048 (plain_doc 1))
      [1; 2; 3; 4; 5; 6; 7; 8; 9; 10; 11].

End Examples.

(* ===================================================================== *)
(** * Statements that are put to the test below *)
(* ===================================================================== *)

Module Stated.

Import Inspector Discovery Csv Writer Pipeline.

(** "A malformed row is skipped and the load continues": every well-formed
    row of the artifact has its identity in the loaded set, wherever the
    malformed rows are. *)
Definition load_skips_bad_rows : Prop :=
  forall (sys : System) (rows : list Line) (l : Line) (id : string),
    In l rows ->
    loaded_identity sys l = Some id ->
    id ∈ fst (load_processed_csv sys (Some (Rec header :: rows))).

(** "Each batch is flushed before the next one is requested." *)
Definition flushes_each_batch : Prop :=
  forall (csv_file : Artifact) (items : list (option (list Info))),
    flushed_before_get false false (fst (csv_writer_thread csv_file items))
    = true.

(** "After any number of completed, interrupted or resumed runs, starting
    from no artifact, the artifact has exactly one header row, on top." *)
Definition header_once_always : Prop :=
  forall a : Artifact, reachable a -> a <> None -> header_once a.

End Stated.

(* ===================================================================== *)
(** * Notions used to state further properties of the code *)
(* ===================================================================== *)

Module Derived.

Import Inspector Discovery Csv Writer Pipeline.

(** The lines of [find] once stripped, the empty ones left out: what the
    loop of lines 103-111 looks at. *)
Definition nonempty_stripped (lines : list string) : list string :=
  List.filter (fun p => negb (String.eqb p ""))
              (map PyStr.strip lines).

(** Every path a scan considers, in the order it considers them: the
    entries of [rglob] on Windows; elsewhere the lines of [find], followed
    by the entries of [rglob] if the [find] block raised. *)
Definition candidates (h : Host) (root_path : string) : list string :=
  let root := path_str h root_path in
  if is_windows (system h) then rglob h root
  else
    nonempty_stripped (fo_lines (find_cmd h root))
    ++ (if fo_raises (find_cmd h root) then rglob h root else []).

(** The first path of each identity: the paths of a list, in order, less
    every one whose identity is that of a path standing before it, in the
    list or in [before].  [norm] gives the identity. *)
Fixpoint first_of_each (norm : string -> string) (before paths : list string)
  : list string :=
  match paths with
  | [] => []
  | p :: rest =>
      (if bool_decide (norm p ∈ map norm before) then [] else [p])
      ++ first_of_each norm (before ++ [p]) rest
  end.

(** Whether [process_single_pdf] gets as far as [fitz.open]: the stat
    succeeded and reported at least 100 bytes. *)
Definition open_attempted (h : Host) (q : string) : bool :=
  match stat_size h q with
  | Ok sz => 100 <=? sz
  | Err _ => false
  end.

Definition is_ok {A : Type} (r : PyResult A) : bool :=
  match r with Ok _ => true | Err _ => false end.

(** The five values of the [category] key. *)
Definition categories : list string := ["S-S"; "S-L"; "L-S"; "L-L"; "N/A"].

(** The count [stats] holds for a category; a missing key counts as 0. *)
Definition count_of (st : Stats) (c : string) : Z :=
  default 0 (category_counts st !! c).

(** Number of results of category [c]. *)
Definition with_category (c : string) (rs : list Info) : nat :=
  List.length (List.filter (fun r => String.eqb (category r) c) rs).

(** The statistics after the results [rs] have arrived. *)
Definition stats_after (rs : list Info) : Stats :=
  stats (fold_left aggregate rs
           {| batch_rows := []; queue := []; stats := initial_stats |}).

(** The paths of rendered rows as the ledger takes them up: each as it is
    read back from the file, a carriage return having become a line feed,
    and those that are not empty. *)
Definition ledger_of_rows (sys : System) (rows : list Info) : gset string :=
  list_to_set
    (map (PyStr.normcase sys)
         (List.filter (fun p => negb (String.eqb p ""))
                      (map (fun r => PyStr.universal_newlines (file_path r))
                           rows))).

(** The path of a discovered file as the next load reads it back from
    the row written for it. *)
Definition read_back (h : Host) (p : string) : string :=
  PyStr.universal_newlines (path_str h p).

(** The identities a load takes from the artifact, one per data row that
    has a path, with repetitions. *)
Definition reloaded (sys : System) (a : Artifact) : list string :=
  omap (loaded_identity sys) (data_rows a).

(** A batch of exactly [BATCH_WRITE_SIZE] rows. *)
Definition full (b : list Info) : Prop := List.length b = BATCH_WRITE_SIZE.

(** The five per-category counts of the summary, added up. *)
Definition sum_counts (st : Stats) : Z :=
  fold_right Z.add 0 (map (count_of st) categories).

End Derived.

(* ===================================================================== *)
(** * Version 2: [pdf_processor_v2.py] *)
(* ===================================================================== *)

Module V2.

Import Inspector Discovery Csv Writer Pipeline.
#[local] Open Scope py_scope.

Definition BATCH_WRITE_SIZE : nat := 200.

Definition set_processing_time (v : Z) : M unit :=
  modify (fun i => {| file_path := file_path i;
                      file_size_bytes := file_size_bytes i;
                      can_open := can_open i; page_count := page_count i;
                      processing_time := v;
                      error_message := error_message i;
                      category := category i |}).

(** Lines 45-61: the body of the [try].  An encrypted document makes the
    function return from inside the [with] block; the page count is
    [len(doc)]. *)
Definition try_body (h : Host) (pdf_path : string) : M unit :=
  size <- (log (CStat pdf_path) ;; lift (stat_size h pdf_path)) ;;
  set_file_size_bytes size ;;
  if size <? 100 then
    set_error_message "too small" ;;
    return_info
  else
    with_open h pdf_path (fun doc =>
      enc <- lift (doc_is_encrypted doc) ;;
      if (enc : bool) then
        set_error_message "encrypted" ;;
        return_info
      else
        pages <- lift (doc_page_count doc) ;;
        set_page_count pages ;;
        set_can_open true ;;
        let page_cat := if pages >? PAGE_COUNT_THRESHOLD then "L" else "S" in
        let size_cat :=
          if size >? FILE_SIZE_THRESHOLD_BYTES then "L" else "S" in
        set_category (page_cat +:+ "-" +:+ size_cat)).

(** [process_single_pdf(pdf_path_str)] of version 2.  [elapsed] is what the
    [finally] clause computes,
    [round((datetime.now() - start_time).total_seconds(), 3)], in units of
    1e-3 s.  The clause runs on every way out of the [try]; a [return info]
    has by then picked the dictionary, not a copy of it, so the caller sees
    the time. *)
Definition run_single_pdf (h : Host) (elapsed : Z) (pdf_path_str : string)
  : PyResult Info * list Call :=
  let pdf_path := path_str h pdf_path_str in
  let fr0 := {| info := initial_info pdf_path; calls := [] |} in
  let '(o, fr1) :=
    try_except (try_body h pdf_path) (fun msg => set_error_message msg) fr0 in
  let '(_, fr2) := set_processing_time elapsed fr1 in
  match o with
  | Raised msg => (Err msg, calls fr2)
  | Normal _ | Returned _ => (Ok (info fr2), calls fr2)
  end.

Definition process_single_pdf (h : Host) (elapsed : Z) (pdf_path_str : string)
  : PyResult Info :=
  fst (run_single_pdf h elapsed pdf_path_str).

(** The list handed to [writer.writerow] at lines 136-144 of version 2;
    [float_repr] is how [csv] prints the [processing_time] float. *)
Definition row_fields (float_repr : Z -> string) (row : Info) : list string :=
  [file_path row; pretty (file_size_bytes row); bool_str (can_open row);
   pretty (page_count row); float_repr (processing_time row);
   error_message row; category row].

(** [write_csv_batch(csv_file, rows)] as file events: nothing at all for an
    empty batch; otherwise the file is opened for appending, the header is
    written if the file did not exist, the rows are written, and the [with]
    block closes the file. *)
Definition write_csv_batch_events (float_repr : Z -> string)
  (csv_file : Artifact) (rows : list Info) : list Event :=
  match rows with
  | [] => []
  | _ =>
      let file_exists := bool_decide (is_Some csv_file) in
      EExists file_exists :: EOpenAppend
        :: (if file_exists then [] else [EWriteRow header])
        ++ map (fun row => EWriteRow (row_fields float_repr row)) rows
        ++ [EClose]
  end.

(** The artifact after [write_csv_batch(csv_file, rows)] has returned. *)
Definition write_csv_batch (float_repr : Z -> string) (csv_file : Artifact)
  (rows : list Info) : Artifact :=
  artifact_after csv_file (write_csv_batch_events float_repr csv_file rows).

(** The variables of [process_pdfs] that change as results arrive. *)
Record Loop : Type := {
  loop_rows : list Info;
  loop_stats : Stats;
  loop_file : Artifact
}.

(** The body of both [for future in as_completed(...)] loops, lines
    177-186 and 200-208 (the progress line of 189-192 only logs). *)
Definition take_result (float_repr : Z -> string) (st : Loop) (res : Info)
  : Loop :=
  let rows := loop_rows st ++ [res] in
  let stats := update_stats (loop_stats st) res in
  if (BATCH_WRITE_SIZE <=? List.length rows)%nat then
    {| loop_rows := []; loop_stats := stats;
       loop_file := write_csv_batch float_repr (loop_file st) rows |}
  else
    {| loop_rows := rows; loop_stats := stats; loop_file := loop_file st |}.

(** One [as_completed] loop over the futures of the paths [order], each
    task timed by [clock]. *)
Fixpoint drain (h : Host) (clock : string -> Z) (float_repr : Z -> string)
  (st : Loop) (order : list string) : PyResult Loop :=
  match order with
  | [] => Ok st
  | p :: rest =>
      if worker_dies h p then Err broken_pool
      else
        match process_single_pdf h (clock p) p with
        | Err msg => Err msg
        | Ok res =>
            drain h clock float_repr (take_result float_repr st res) rest
        end
  end.

(** Lines 163-208: the submission loop and the loop over what is left in
    [pdf_batch] when the generator ends. *)
Fixpoint submit_loop (h : Host) (clock : string -> Z)
  (float_repr : Z -> string) (completion : list string -> list string)
  (batch_size : nat) (st : Loop) (pdf_batch gen : list string)
  : PyResult Loop :=
  match gen with
  | [] => drain h clock float_repr st (completion pdf_batch)
  | pdf :: rest =>
      let pdf_batch := pdf_batch ++ [pdf] in
      if (batch_size <=? List.length pdf_batch)%nat then
        match drain h clock float_repr st (completion pdf_batch) with
        | Err msg => Err msg
        | Ok st' =>
            submit_loop h clock float_repr completion batch_size st' [] rest
        end
      else
        submit_loop h clock float_repr completion batch_size st pdf_batch rest
  end.

(** The paths in the order their results arrive: batch after batch, each
    in the order the pool completes it. *)
Fixpoint arrival (completion : list string -> list string)
  (batch_size : nat) (pdf_batch gen : list string) : list string :=
  match gen with
  | [] => completion pdf_batch
  | pdf :: rest =>
      let pdf_batch := pdf_batch ++ [pdf] in
      if (batch_size <=? List.length pdf_batch)%nat then
        completion pdf_batch ++ arrival completion batch_size [] rest
      else arrival completion batch_size pdf_batch rest
  end.

Record Run : Type := {
  run_ledger : gset string;
  run_pool : list PoolEvent;
  run_stats : Stats;
  run_artifact : Artifact
}.

(** [process_pdfs(root_path, csv_file, workers, resume)] of version 2, to
    the end of the [with] block of the pool (line 213); the summary that
    follows is the one of version 6.  The pool is built and broken as in
    version 6. *)
Definition process_pdfs (h : Host) (clock : string -> Z)
  (float_repr : Z -> string) (completion : list string -> list string)
  (root_path : string) (csv_file : Artifact) (workers : option Z)
  (resume : bool) : PyResult Run :=
  let n := effective_workers h workers in
  let '(ledger, _) :=
    if resume then load_processed_csv (system h) csv_file else (∅, []) in
  match pool_error (system h) n with
  | Some msg => Err msg
  | None =>
    let gen := pdf_gen h root_path ledger in
    match submit_loop h clock float_repr completion (v2_batch_size n)
            {| loop_rows := []; loop_stats := initial_stats;
               loop_file := csv_file |} [] gen with
    | Err msg => Err msg
    | Ok st =>
        Ok {| run_ledger := ledger;
              run_pool := v2_pool_events completion (v2_batch_size n) [] gen;
              run_stats := loop_stats st;
              run_artifact :=
                match loop_rows st with
                | [] => loop_file st
                | _ => write_csv_batch float_repr (loop_file st) (loop_rows st)
                end |}
    end
  end.

(** The results of the tasks for [order], each with its time. *)
Fixpoint results (h : Host) (clock : string -> Z) (order : list string)
  : PyResult (list Info) :=
  match order with
  | [] => Ok []
  | p :: rest =>
      if worker_dies h p then Err broken_pool
      else
        match process_single_pdf h (clock p) p with
        | Err msg => Err msg
        | Ok res =>
            match results h clock rest with
            | Err msg => Err msg
            | Ok more => Ok (res :: more)
            end
        end
  end.

(** A record with its processing time replaced. *)
Definition with_time (t : Z) (i : Info) : Info :=
  {| file_path := file_path i; file_size_bytes := file_size_bytes i;
     can_open := can_open i; page_count := page_count i;
     processing_time := t; error_message := error_message i;
     category := category i |}.

(** What [write_csv_batch] adds up to. *)
Definition written (float_repr : Z -> string) (csv_file : Artifact)
  (rows : list Info) : Artifact :=
  match rows with
  | [] => csv_file
  | _ =>
      Some (existing csv_file ++ map Rec (header_if_new csv_file)
              ++ map (fun row => Rec (row_fields float_repr row)) rows)
  end.

(** The file as it would stand if the rows held back were written now. *)
Definition pending (float_repr : Z -> string) (st : Loop) : Artifact :=
  written float_repr (loop_file st) (loop_rows st).

End V2.

(* ===================================================================== *)
(** * The corpus generator: [gen_pdf/gen_pdfs.py] *)
(* ===================================================================== *)

Module GenPdfs.

(** [list(range(start, stop, step))]; a zero step raises [ValueError]. *)
Definition py_range (start stop step : Z) : PyResult (list Z) :=
  if step =? 0 then Err "range() arg 3 must not be zero"
  else
    let count :=
      if 0 <? step then
        if start <? stop then (stop - start - 1) / step + 1 else 0
      else
        if stop <? start then (start - stop - 1) / (- step) + 1 else 0 in
    Ok (map (fun i => start + Z.of_nat i * step) (seq 0 (Z.to_nat count))).

(** [list(chunk_ranges(total, chunk_size))] *)
Definition chunk_ranges (total chunk_size : Z) : PyResult (list (Z * Z)) :=
  match py_range 0 total chunk_size with
  | Err msg => Err msg
  | Ok starts =>
      Ok (map (fun start => (start, Z.min (start + chunk_size) total)) starts)
  end.

(** The loop of [main], lines 123-129: the ranges handed to
    [worker_generate] when [generated_total] files are taken as made. *)
Fixpoint plan (ranges : list (Z * Z)) (generated_total : Z)
  : list (Z * Z) :=
  match ranges with
  | [] => []
  | (s, e) :: rest =>
      if e <=? generated_total then plan rest generated_total
      else (Z.max s generated_total, e) :: plan rest generated_total
  end.

(** The integers from [s] up to [e], [e] left out: what
    [range(start_idx, end_idx)] runs through. *)
Definition ints (s e : Z) : list Z :=
  map (fun k => s + Z.of_nat k) (seq 0 (Z.to_nat (e - s))).

(** [f"{n:0{width}d}"]: the decimal digits, zeros in front up to the
    width, the sign first and counted in the width. *)
Definition zero_pad (width : nat) (n : Z) : string :=
  let digits := pretty (Z.abs n) in
  let sign := if n <? 0 then "-" else "" in
  let room := (width - String.length sign - String.length digits)%nat in
  sign +:+ string_of_list_ascii (repeat "0"%char room) +:+ digits.

(** What the [ValueError] of a format specification that is not one
    prints. *)
Definition format_error (padding : Z) : string :=
  "Invalid format specifier '0" +:+ pretty padding
  +:+ "d' for object of type 'int'".

(** [f"{prefix}{idx:0{padding}d}.pdf"], line 58.  The format
    specification is made of [0], the digits of [padding] and [d]; with a
    negative [padding] it is not one and the formatting raises
    [ValueError].  (A width that the machine cannot hold is not
    modelled.) *)
Definition format_name (prefix : string) (padding idx : Z) : PyResult string :=
  if padding <? 0 then Err (format_error padding)
  else Ok (prefix +:+ zero_pad (Z.to_nat padding) idx +:+ ".pdf").

(** What [worker_generate] calls outside itself. *)
Record Disk : Type := {
  (** [str(Path(a) / b)] *)
  join : string -> string -> string;
  (** [subdir.mkdir(parents=True, exist_ok=True)] *)
  mkdir : string -> PyResult unit;
  (** the value [random.randint] draws for the file of an index *)
  pick : Z -> Z;
  (** [make_pdf_file(out_path, page_count)]: the size of the file made *)
  make_pdf_file : string -> Z -> PyResult Z
}.

(** [random.randint(a, b)] *)
Definition randint (d : Disk) (idx a b : Z) : PyResult Z :=
  if b <? a then Err "empty range for randrange()" else Ok (pick d idx).

Record Tally : Type := {
  generated : Z;
  total_bytes : Z;
  warnings : list string
}.

(** The [for idx in range(start_idx, end_idx)] loop of [worker_generate],
    lines 53-67.  Only [make_pdf_file] is inside the [try]: the division of
    line 54, [mkdir], the formatting of line 58 and [randint] raise out of
    the function, in that order. *)
Fixpoint worker_loop (d : Disk) (out_dir prefix : string) (padding : Z)
  (files_per_dir min_pages max_pages : Z) (indices : list Z) (t : Tally)
  : PyResult Tally :=
  match indices with
  | [] => Ok t
  | idx :: rest =>
      if files_per_dir =? 0 then Err "integer division or modulo by zero"
      else
        let dir_index := idx / files_per_dir in
        let subdir := join d out_dir (zero_pad 6 dir_index) in
        match mkdir d subdir with
        | Err msg => Err msg
        | Ok _ =>
            match format_name prefix padding idx with
            | Err msg => Err msg
            | Ok filename =>
                let out_path := join d subdir filename in
                match randint d idx min_pages max_pages with
                | Err msg => Err msg
                | Ok page_count =>
                    let t' :=
                      match make_pdf_file d out_path page_count with
                      | Ok b =>
                          {| generated := generated t + 1;
                             total_bytes := total_bytes t + b;
                             warnings := warnings t |}
                      | Err e =>
                          {| generated := generated t;
                             total_bytes := total_bytes t;
                             warnings := warnings t ++ [e] |}
                      end in
                    worker_loop d out_dir prefix padding files_per_dir
                                min_pages max_pages rest t'
                end
            end
        end
  end.

(** [worker_generate(start_idx, end_idx, ...)] *)
Definition worker_generate (d : Disk) (start_idx end_idx : Z)
  (out_dir prefix : string) (padding : Z)
  (files_per_dir min_pages max_pages : Z) : PyResult Tally :=
  worker_loop d out_dir prefix padding files_per_dir min_pages max_pages
              (ints start_idx end_idx)
              {| generated := 0; total_bytes := 0; warnings := [] |}.

(** What making the file of index [idx] gives: the path is built as in
    lines 54-59, with a width [padding] that is not negative, the page
    count is the one drawn for it. *)
Definition outcome (d : Disk) (out_dir prefix : string) (padding : Z)
  (files_per_dir : Z) (idx : Z) : PyResult Z :=
  let subdir := join d out_dir (zero_pad 6 (idx / files_per_dir)) in
  make_pdf_file d
    (join d subdir (prefix +:+ zero_pad (Z.to_nat padding) idx +:+ ".pdf"))
    (pick d idx).

(** Sizes of the files made, messages of the failures. *)
Definition sizes (outcomes : list (PyResult Z)) : list Z :=
  omap (fun r => match r with Ok b => Some b | Err _ => None end) outcomes.

Definition failures (outcomes : list (PyResult Z)) : list string :=
  omap (fun r => match r with Ok _ => None | Err e => Some e end) outcomes.

Definition sum_bytes (l : list Z) : Z := fold_right Z.add 0 l.

(** The indices a list of ranges runs through, range after range. *)
Definition covered (ranges : list (Z * Z)) : list Z :=
  flat_map (fun r => ints (fst r) (snd r)) ranges.

End GenPdfs.

(* ===================================================================== *)
(** * Inputs used by the examples of the further properties *)
(* ===================================================================== *)

Module MoreExamples.

Import GenPdfs.

(** A disk on which every directory can be made and every file but the
    one of index 2 can be written; each file made has 1000 bytes. *)
Definition small_disk : Disk :=
  {| join := fun a b => a +:+ "/" +:+ b;
     mkdir := fun _ => Ok tt;
     pick := fun _ => 3;
     make_pdf_file := fun path _ =>
       if String.eqb path "out/000000/page_0000002.pdf"
       then Err "disk full" else Ok 1000 |}.

End MoreExamples.

(* ##################################################################### *)
(** * Theorems *)
(* ##################################################################### *)

(* ===================================================================== *)
(** ** Inspector *)
(* ===================================================================== *)

Module InspectorFacts.

Import Inspector Examples.

Lemma run_single_pdf_cases (h : Host) (p : string) :
  run_single_pdf h p = inspect_cases h p.
Proof.
  unfold run_single_pdf, inspect_cases, try_except, try_body.
  unfold bind, lift, log, ret, raise, set_file_size_bytes, modify. simpl.
  destruct (stat_size h (path_str h p)) as [sz | m]; simpl; [| reflexivity].
  destruct (sz <? 100) eqn:Hsmall; simpl; [reflexivity |].
  unfold with_open, bind, lift, log, ret, raise. simpl.
  destruct (fitz_open h (path_str h p)) as [doc | m]; simpl; [| reflexivity].
  destruct (doc_is_encrypted doc) as [[|] | m]; simpl; try reflexivity.
  destruct (doc_page_count doc) as [pc | m]; simpl; reflexivity.
Qed.

Lemma gtb_ltb (a b : Z) : (a >? b) = (b <? a).
Proof. apply Z.gtb_ltb. Qed.

(** C2. Category correctness: whenever the result says the document could
    be opened, its category is the page class, a dash, the size class, where
    a class is L strictly above its threshold (100 pages, 10 MiB) and S
    otherwise; a value equal to its threshold is classed S. *)
Theorem category_correct (h : Host) (p : string) (info : Info) :
  process_single_pdf h p = Ok info ->
  can_open info = true ->
  category info = spec_category (page_count info) (file_size_bytes info)
  /\ (page_count info = 100 ->
      category info = "S-" +:+ spec_size_class (file_size_bytes info))
  /\ (file_size_bytes info = 10 * 1024 * 1024 ->
      category info = spec_page_class (page_count info) +:+ "-S").
Proof.
  unfold process_single_pdf. rewrite run_single_pdf_cases.
  unfold inspect_cases.
  destruct (stat_size h (path_str h p)) as [sz | m]; simpl;
    [| intros [= <-]; discriminate].
  destruct (sz <? 100); simpl; [intros [= <-]; discriminate |].
  destruct (fitz_open h (path_str h p)) as [doc | m]; simpl;
    [| intros [= <-]; discriminate].
  destruct (doc_is_encrypted doc) as [[|] | m]; simpl;
    try (intros [= <-]; discriminate).
  destruct (doc_page_count doc) as [pc | m]; simpl;
    [| intros [= <-]; discriminate].
  intros [= <-] _. simpl.
  unfold spec_category, spec_page_class, spec_size_class,
    PAGE_COUNT_THRESHOLD, FILE_SIZE_THRESHOLD_BYTES.
  rewrite !gtb_ltb.
  repeat split.
  - intros ->. reflexivity.
  - intros ->. reflexivity.
Qed.

(** The file [edge.pdf] sits on both thresholds and is classed S-S. *)
Lemma category_correct_witness :
  exists info,
    process_single_pdf corpus_host "/data/edge.pdf" = Ok info
    /\ can_open info = true
    /\ page_count info = 100
    /\ file_size_bytes info = 10 * 1024 * 1024
    /\ category info = "S-S".
Proof.
  eexists. split; [vm_compute; reflexivity |].
  split; [reflexivity |]. split; [reflexivity |]. split; [reflexivity |].
  exact (proj1 (category_correct corpus_host "/data/edge.pdf" _
                  eq_refl eq_refl)).
Defined.

Lemma process_single_pdf_cases (h : Host) (p : string) :
  process_single_pdf h p = fst (inspect_cases h p).
Proof. unfold process_single_pdf. now rewrite run_single_pdf_cases. Qed.

Ltac capture_case :=
  simplify_eq; simpl;
  try reflexivity; try lia;
  repeat match goal with
         | H : _ \/ _ |- _ => destruct H
         | H : _ /\ _ |- _ => destruct H
         end;
  congruence.

(** C3. Inspector total failure capture: on every input the function
    returns a record, no exception leaves it; a file of fewer than 100 bytes
    gets the message "too small" and the document is never opened; a
    document that says it is encrypted gets "encrypted" and is not openable;
    a failing stat, open or page count puts the underlying message in the
    record, which is not openable and has category N/A. *)
Theorem inspect_captures_failures (h : Host) (p : string) :
  exists info calls,
    run_single_pdf h p = (Ok info, calls)
    /\ (forall sz, stat_size h (path_str h p) = Ok sz -> sz < 100 ->
        error_message info = "too small"
        /\ List.filter opens calls = [])
    /\ (forall sz doc,
        stat_size h (path_str h p) = Ok sz -> 100 <= sz ->
        fitz_open h (path_str h p) = Ok doc ->
        doc_is_encrypted doc = Ok true ->
        error_message info = "encrypted" /\ can_open info = false)
    /\ (forall sz msg,
        stat_size h (path_str h p) = Ok sz -> 100 <= sz ->
        fitz_open h (path_str h p) = Err msg ->
        error_message info = msg /\ can_open info = false
        /\ category info = "N/A")
    /\ (forall msg,
        stat_size h (path_str h p) = Err msg ->
        error_message info = msg /\ can_open info = false
        /\ category info = "N/A")
    /\ (forall sz doc msg,
        stat_size h (path_str h p) = Ok sz -> 100 <= sz ->
        fitz_open h (path_str h p) = Ok doc ->
        doc_is_encrypted doc = Err msg
        \/ (doc_is_encrypted doc = Ok false /\ doc_page_count doc = Err msg) ->
        error_message info = msg /\ can_open info = false
        /\ category info = "N/A").
Proof.
  rewrite run_single_pdf_cases. unfold inspect_cases.
  destruct (stat_size h (path_str h p)) as [sz | m];
    [destruct (sz <? 100) eqn:Hsmall;
       [apply Z.ltb_lt in Hsmall
       | apply Z.ltb_ge in Hsmall;
         destruct (fitz_open h (path_str h p)) as [doc | m];
           [destruct (doc_is_encrypted doc) as [[|] | m] eqn:Henc;
              [| destruct (doc_page_count doc) as [pc | m] eqn:Hpc |] |]] |];
    (eexists _, _; split; [reflexivity |]);
    repeat split; intros; capture_case.
Qed.

(** On the example corpus: the 99-byte file is reported too small and no
    open is attempted, the locked file is reported encrypted, the damaged
    one carries the message of the failed open. *)
Lemma inspect_captures_failures_witness :
  (exists info calls,
      run_single_pdf corpus_host "/data/tiny.pdf" = (Ok info, calls)
      /\ error_message info = "too small" /\ List.filter opens calls = [])
  /\ (exists info calls,
      run_single_pdf corpus_host "/data/locked.pdf" = (Ok info, calls)
      /\ error_message info = "encrypted" /\ can_open info = false)
  /\ (exists info calls,
      run_single_pdf corpus_host "/data/broken.pdf" = (Ok info, calls)
      /\ error_message info = "cannot open broken document"
      /\ can_open info = false /\ category info = "N/A").
Proof.
  split; [| split].
  - destruct (inspect_captures_failures corpus_host "/data/tiny.pdf")
      as (info & calls & Hrun & Hsmall & _).
    exists info, calls. split; [exact Hrun |].
    apply (Hsmall 99); [reflexivity | lia].
  - destruct (inspect_captures_failures corpus_host "/data/locked.pdf")
      as (info & calls & Hrun & _ & Henc & _).
    exists info, calls. split; [exact Hrun |].
    apply (Henc 4096 {| doc_is_encrypted := Ok true;
                        doc_page_count := Ok 3 |});
      [reflexivity | lia | reflexivity | reflexivity].
  - destruct (inspect_captures_failures corpus_host "/data/broken.pdf")
      as (info & calls & Hrun & _ & _ & Hopen & _).
    exists info, calls. split; [exact Hrun |].
    apply (Hopen 4096); [reflexivity | lia | reflexivity].
Defined.

(** C8. Record invariant: in every result, openable implies an empty error
    message and a category other than N/A, and category N/A implies not
    openable. *)
Theorem inspection_result_invariant (h : Host) (p : string) (info : Info) :
  process_single_pdf h p = Ok info ->
  (can_open info = true ->
   error_message info = "" /\ category info <> "N/A")
  /\ (category info = "N/A" -> can_open info = false).
Proof.
  rewrite process_single_pdf_cases. unfold inspect_cases.
  destruct (stat_size h (path_str h p)) as [sz | m]; simpl.
  2:{ intros [= <-]. simpl. split; [discriminate | reflexivity]. }
  destruct (sz <? 100); simpl.
  { intros [= <-]. simpl. split; [discriminate | reflexivity]. }
  destruct (fitz_open h (path_str h p)) as [doc | m]; simpl.
  2:{ intros [= <-]. simpl. split; [discriminate | reflexivity]. }
  destruct (doc_is_encrypted doc) as [[|] | m]; simpl;
    try (intros [= <-]; simpl; split; [discriminate | reflexivity]).
  destruct (doc_page_count doc) as [pc | m]; simpl;
    try (intros [= <-]; simpl; split; [discriminate | reflexivity]).
  intros [= <-]. simpl.
  destruct (pc >? PAGE_COUNT_THRESHOLD), (sz >? FILE_SIZE_THRESHOLD_BYTES);
    (split; [intros _; split; [reflexivity | discriminate] | discriminate]).
Qed.

(** An openable file and a tiny one of the example corpus. *)
Lemma inspection_result_invariant_witness :
  (exists info,
      process_single_pdf corpus_host "/data/big.pdf" = Ok info
      /\ can_open info = true
      /\ error_message info = "" /\ category info <> "N/A")
  /\ (exists info,
      process_single_pdf corpus_host "/data/tiny.pdf" = Ok info
      /\ category info = "N/A" /\ can_open info = false).
Proof.
  split.
  - eexists. split; [vm_compute; reflexivity |].
    split; [reflexivity |].
    exact (proj1 (inspection_result_invariant corpus_host "/data/big.pdf" _
                    eq_refl) eq_refl).
  - eexists. split; [vm_compute; reflexivity |].
    split; [reflexivity |].
    exact (proj2 (inspection_result_invariant corpus_host "/data/tiny.pdf" _
                    eq_refl) eq_refl).
Defined.

End InspectorFacts.

(* ===================================================================== *)
(** ** Ledger *)
(* ===================================================================== *)

Module LedgerFacts.

Import Inspector Csv Writer Examples Stated.

Lemma zip_keys_notin (k : string) (names row : list string) :
  ~ In k names -> ~ In k (map fst (zip names row)).
Proof.
  revert row. induction names as [| n names IH]; intros [| v row] Hk;
    simpl; try tauto.
  intros [-> | Hin]; [apply Hk; now left |].
  apply (IH row); [| exact Hin]. intros H. apply Hk. now right.
Qed.

Lemma skipn_notin (k : string) (n : nat) (names : list string) :
  ~ In k names -> ~ In k (skipn n names).
Proof.
  revert n. induction names as [| x names IH]; intros [| n] Hk; simpl in *;
    try tauto.
  apply IH. tauto.
Qed.

Lemma fold_some_lookup (k : string) (kvs : list (string * string))
  (d : gmap string (option string)) :
  ~ In k (map fst kvs) ->
  fold_left (fun d kv => <[fst kv := Some (snd kv)]> d) kvs d !! k = d !! k.
Proof.
  revert d. induction kvs as [| [k' v] kvs IH]; intros d Hk; simpl;
    [reflexivity |].
  rewrite IH by (intros H; apply Hk; now right).
  apply lookup_insert_ne. intros ->. apply Hk. now left.
Qed.

Lemma fold_none_lookup (k : string) (ks : list string)
  (d : gmap string (option string)) :
  ~ In k ks ->
  fold_left (fun d k' => <[k' := None]> d) ks d !! k = d !! k.
Proof.
  revert d. induction ks as [| k' ks IH]; intros d Hk; simpl;
    [reflexivity |].
  rewrite IH by (intros H; apply Hk; now right).
  apply lookup_insert_ne. intros ->. apply Hk. now left.
Qed.

Lemma file_path_not_in_tail : ~ In "file_path" (tail header).
Proof. simpl. intros H. repeat destruct H as [H | H]; discriminate || tauto. Qed.

(** The first field of a row is what the reader files under the first
    field name, when no other column bears that name. *)
Lemma row_get_first (k : string) (names : list string) (p : string)
  (fs : list string) :
  ~ In k names ->
  row_get (row_dict (k :: names) (p :: fs)) k = Some p.
Proof.
  intros Hk. unfold row_get, row_dict. cbn [List.length skipn zip zip_with].
  rewrite fold_none_lookup by (apply skipn_notin, Hk).
  cbn [fold_left fst snd].
  rewrite fold_some_lookup by (apply zip_keys_notin, Hk).
  now rewrite lookup_insert_eq.
Qed.

(** Under the writer's header, [row.get("file_path")] is the first field. *)
Lemma row_get_file_path (p : string) (fs : list string) :
  row_get (row_dict header (p :: fs)) "file_path" = Some p.
Proof. apply (row_get_first "file_path" (tail header)), file_path_not_in_tail. Qed.

(** A string in which no line feed is read holds no line end: it is read
    as it was written. *)
Lemma translate_newlines_plain (l : list ascii) :
  ~ In PyStr.lf (PyStr.translate_newlines false l) ->
  PyStr.translate_newlines false l = l.
Proof.
  induction l as [| c l IH]; cbn [PyStr.translate_newlines];
    [reflexivity |].
  destruct (Ascii.eqb c PyStr.cr).
  - intros H. exfalso. apply H. now left.
  - destruct (Ascii.eqb c PyStr.lf).
    + intros H. exfalso. apply H. now left.
    + intros H. f_equal. apply IH. intros Hin. apply H. now right.
Qed.

Lemma universal_newlines_plain (f s : string) :
  PyStr.universal_newlines f = s ->
  ~ In PyStr.lf (list_ascii_of_string s) ->
  f = s.
Proof.
  unfold PyStr.universal_newlines. intros <- H.
  rewrite list_ascii_of_string_of_list_ascii in H.
  rewrite translate_newlines_plain by exact H.
  symmetry. apply string_of_list_ascii_of_string.
Qed.

(** The header is read as it was written. *)
Lemma header_row : row_of (Rec header) = header.
Proof. reflexivity. Qed.

Lemma header_readable : readable (Rec header).
Proof. reflexivity. Qed.

(** Records the reader parses are delivered until reading raises. *)
Lemma parse_readable (good tl : list Line) :
  Forall readable good ->
  parse (good ++ tl) = (map row_of good ++ fst (parse tl), snd (parse tl)).
Proof.
  induction 1 as [| l good Hl _ IH].
  - cbn [app map]. now destruct (parse tl).
  - destruct l as [fields | msg lost]; [| destruct Hl].
    unfold readable in Hl. cbn [app parse map row_of].
    now rewrite Hl, IH.
Qed.

Lemma reader_rows_readable (good : list Line) :
  Forall readable good -> reader_rows good = (map row_of good, None).
Proof.
  intros Hgood. unfold reader_rows.
  rewrite <- (app_nil_r good) at 1.
  rewrite (parse_readable good [] Hgood). cbn [parse fst snd].
  now rewrite app_nil_r.
Qed.

Lemma reader_rows_raises (good tl : list Line) (msg : string) (lost : nat) :
  Forall readable good ->
  parse tl = ([], Some (msg, lost)) ->
  reader_rows (good ++ tl)
  = (firstn (List.length good - lost) (map row_of good), Some msg).
Proof.
  intros Hgood Htl. unfold reader_rows.
  rewrite (parse_readable good _ Hgood), Htl. cbn [fst snd].
  now rewrite app_nil_r, length_map.
Qed.

(** Under the writer's header the loop adds exactly the identities of the
    records it is delivered. *)
Lemma load_loop_exact (sys : System) (rows : list Line)
  (processed : gset string) :
  load_loop sys header processed (map row_of rows)
  = list_to_set (omap (loaded_identity sys) rows) ∪ processed.
Proof.
  revert processed.
  induction rows as [| l rows IH]; intros processed.
  - cbn. set_solver.
  - destruct l as [[| p fs] | msg lost].
    + cbn [map row_of read_fields load_loop]. rewrite IH. reflexivity.
    + cbn [map row_of read_fields load_loop].
      rewrite row_get_file_path. cbn [truthy default].
      change (omap (loaded_identity sys) (Rec (p :: fs) :: rows))
        with (match loaded_identity sys (Rec (p :: fs)) with
              | Some y => y :: omap (loaded_identity sys) rows
              | None => omap (loaded_identity sys) rows
              end).
      cbn [loaded_identity].
      destruct (String.eqb (PyStr.universal_newlines p) ""); cbn [negb].
      * apply IH.
      * rewrite IH. cbn [list_to_set foldr]. set_solver.
    + cbn [map row_of load_loop]. rewrite IH. reflexivity.
Qed.

(** An artifact of parsed rows under the writer's header loads as the
    identities of its rows, and the count is logged. *)
Lemma load_good_rows (sys : System) (good : list Line) :
  Forall readable good ->
  load_processed_csv sys (Some (Rec header :: good))
  = (list_to_set (omap (loaded_identity sys) good),
     [LogLoaded (size (list_to_set (omap (loaded_identity sys) good)
                         : gset string))]).
Proof.
  intros Hgood. unfold load_processed_csv.
  rewrite (reader_rows_readable (Rec header :: good))
    by (constructor; [exact header_readable | exact Hgood]).
  cbn [map]. rewrite header_row, load_loop_exact.
  replace (list_to_set (omap (loaded_identity sys) good) ∪ ∅)
    with (list_to_set (omap (loaded_identity sys) good) : gset string)
    by set_solver.
  reflexivity.
Qed.

(** When reading raises, the load ends with a warning, and holds the
    identities of the rows delivered by then. *)
Lemma load_until_raise (sys : System) (good tl : list Line) (msg : string)
  (lost : nat) :
  Forall readable good ->
  parse tl = ([], Some (msg, lost)) ->
  load_processed_csv sys (Some (Rec header :: good ++ tl))
  = (list_to_set
       (omap (loaded_identity sys) (firstn (List.length good - lost) good)),
     [LogWarning msg]).
Proof.
  intros Hgood Htl. unfold load_processed_csv.
  rewrite app_comm_cons.
  rewrite (reader_rows_raises (Rec header :: good) tl msg lost
             (Forall_cons_2 _ _ _ header_readable Hgood) Htl).
  cbn [List.length map]. rewrite header_row.
  destruct (le_lt_dec lost (List.length good)) as [Hle | Hlt].
  - replace (S (List.length good) - lost)%nat
      with (S (List.length good - lost)) by lia.
    cbn [firstn]. rewrite firstn_map, load_loop_exact.
    f_equal. set_solver.
  - replace (S (List.length good) - lost)%nat with 0%nat by lia.
    replace (List.length good - lost)%nat with 0%nat by lia.
    reflexivity.
Qed.

(** Counterexample to the claim as stated: the row of [b.pdf] stands after
    a record the reader raises at and is not loaded. *)
Lemma load_stops_at_bad_row : ~ load_skips_bad_rows.
Proof.
  intros H.
  specialize (H Linux (tail (default [] damaged)) (Rec (row_fields row_b))
                "/data/b.pdf").
  assert (Hin : "/data/b.pdf"
                ∈ fst (load_processed_csv Linux damaged)).
  { apply H; [simpl; tauto | reflexivity]. }
  revert Hin. eapply bool_decide_eq_false_1. vm_compute. reflexivity.
Qed.

(** C9, amended. A missing artifact loads as the empty set, silently.  In
    an artifact that starts with the writer's header row, the first place
    where reading raises ends the load with a warning, and no exception
    leaves the function: the set returned holds the identities of the rows
    that had been delivered by then, each as it is read back (rows with no
    path are passed over).  These are the rows before that place less the
    last [lost] of them, which the text layer had not delivered: none is
    missing when the reader raises at a record, as it does at a field over
    its limit; all may be when bytes do not decode.  The rows after that
    place are never read.  Where reading does not raise, every row is
    loaded and the count is logged. *)
Theorem ledger_load_partial (sys : System) (good rest : list Line)
  (msg : string) (lost : nat) (fields : list string) :
  Forall readable good ->
  load_processed_csv sys None = (∅, [])
  /\ load_processed_csv sys
       (Some (Rec header :: good ++ Bad msg lost :: rest))
     = (list_to_set
          (omap (loaded_identity sys)
                (firstn (List.length good - lost) good)),
        [LogWarning msg])
  /\ (too_long (read_fields fields) = true ->
      load_processed_csv sys
        (Some (Rec header :: good ++ Rec fields :: rest))
      = (list_to_set (omap (loaded_identity sys) good),
         [LogWarning field_limit_error]))
  /\ load_processed_csv sys (Some (Rec header :: good))
     = (list_to_set (omap (loaded_identity sys) good),
        [LogLoaded (size (list_to_set (omap (loaded_identity sys) good)
                            : gset string))]).
Proof.
  intros Hgood. split; [reflexivity |]. split; [| split].
  - now apply load_until_raise.
  - intros Hlong.
    rewrite (load_until_raise sys good (Rec fields :: rest)
               field_limit_error 0 Hgood)
      by (cbn [parse]; now rewrite Hlong).
    now rewrite Nat.sub_0_r, firstn_all.
  - apply load_good_rows, Hgood.
Qed.

(** On the damaged artifact the row before the long field is in the
    ledger; on the garbled one nothing is: both loads end with the message
    as a warning. *)
Lemma ledger_load_partial_witness :
  load_processed_csv Linux damaged
  = (list_to_set (omap (loaded_identity Linux) [Rec (row_fields row_a)]),
     [LogWarning field_limit_error])
  /\ fst (load_processed_csv Linux garbled) = ∅.
Proof.
  split.
  - refine (proj1 (proj2 (ledger_load_partial Linux [Rec (row_fields row_a)]
                            [Rec (row_fields row_b)] field_limit_error 0 []
                            _))).
    repeat constructor.
  - refine (f_equal fst
              (proj1 (proj2 (ledger_load_partial Linux
                               [Rec (row_fields row_a)]
                               [Rec (row_fields row_b)] _ 2 [] _)))).
    repeat constructor.
Defined.

End LedgerFacts.

(* ===================================================================== *)
(** ** Report writer *)
(* ===================================================================== *)

Module WriterFacts.

Import Inspector Csv Writer Examples Stated.

Lemma writer_loop_batches (batches : list (list Info))
  (rest : list (option (list Info))) :
  writer_loop (map Some batches ++ None :: rest)
  = (flat_map batch_events batches ++ [EGet None], true).
Proof.
  induction batches as [| rows batches IH]; simpl; [reflexivity |].
  rewrite IH. unfold batch_events. simpl.
  rewrite <- !app_assoc. reflexivity.
Qed.

(** The events of a writer that is sent [batches] and then the sentinel. *)
Lemma csv_writer_thread_events (csv_file : Artifact)
  (batches : list (list Info)) (rest : list (option (list Info))) :
  csv_writer_thread csv_file (map Some batches ++ None :: rest)
  = (EExists (bool_decide (is_Some csv_file)) :: EOpenAppend
       :: map EWriteRow (header_if_new csv_file)
       ++ flat_map batch_events batches ++ [EGet None; EClose],
     true).
Proof.
  unfold csv_writer_thread, header_if_new. rewrite writer_loop_batches.
  destruct (bool_decide (is_Some csv_file)); simpl;
    now rewrite <- ?app_assoc.
Qed.

Lemma rows_written_app (evs1 evs2 : list Event) :
  rows_written (evs1 ++ evs2) = rows_written evs1 ++ rows_written evs2.
Proof.
  induction evs1 as [| [] evs1 IH]; simpl; rewrite ?IH; reflexivity.
Qed.

Lemma rows_written_header (fields : list (list string)) :
  rows_written (map EWriteRow fields) = map Rec fields.
Proof. induction fields; simpl; congruence. Qed.

Lemma rows_written_batches (batches : list (list Info)) :
  rows_written (flat_map batch_events batches) = rendered (concat batches).
Proof.
  induction batches as [| rows batches IH]; simpl; [reflexivity |].
  rewrite rows_written_app, IH. unfold rendered. rewrite map_app.
  f_equal. rewrite rows_written_app. simpl. rewrite app_nil_r.
  induction rows; simpl; congruence.
Qed.

Lemma quiet_steps (evs : list Event) (fs : FileState) :
  forallb quiet evs = true ->
  fold_left file_step evs fs
  = {| disk := disk fs; buffer := buffer fs ++ rows_written evs |}.
Proof.
  revert fs. induction evs as [| e evs IH]; intros [d b] Hq; simpl.
  - now rewrite app_nil_r.
  - simpl in Hq. apply andb_prop in Hq as [He Hq].
    rewrite IH by exact Hq.
    destruct e; try discriminate; simpl; try reflexivity.
    now rewrite <- app_assoc.
Qed.

Lemma quiet_batches (batches : list (list Info)) :
  forallb quiet (flat_map batch_events batches) = true.
Proof.
  induction batches as [| rows batches IH]; simpl; [reflexivity |].
  rewrite forallb_app, IH, forallb_app. simpl.
  rewrite andb_true_r. induction rows; simpl; auto.
Qed.

Lemma quiet_header (fields : list (list string)) :
  forallb quiet (map EWriteRow fields) = true.
Proof. induction fields; simpl; auto. Qed.

Lemma quiet_firstn (n : nat) (evs : list Event) :
  forallb quiet evs = true -> forallb quiet (firstn n evs) = true.
Proof.
  revert n. induction evs as [| e evs IH]; intros [| n] Hq; simpl; auto.
  simpl in Hq. apply andb_prop in Hq as [-> Hq]. simpl. now apply IH.
Qed.

Lemma no_flush_in_quiet (evs : list Event) :
  forallb quiet evs = true -> List.filter is_flush evs = [].
Proof.
  induction evs as [| [] evs IH]; simpl; intros Hq;
    try discriminate; auto.
Qed.

(** The file after the writer has been sent [batches] and the sentinel:
    what it held, the header if there was no file, the rows of the batches
    in order. *)
Lemma writer_artifact (csv_file : Artifact) (batches : list (list Info))
  (rest : list (option (list Info))) :
  artifact_after csv_file
    (fst (csv_writer_thread csv_file (map Some batches ++ None :: rest)))
  = Some (existing csv_file ++ map Rec (header_if_new csv_file)
            ++ rendered (concat batches)).
Proof.
  rewrite csv_writer_thread_events. simpl fst.
  rewrite app_assoc.
  unfold artifact_after, run_events.
  cbn [fold_left file_step disk buffer].
  rewrite fold_left_app.
  rewrite (quiet_steps (map EWriteRow (header_if_new csv_file)
                          ++ flat_map batch_events batches))
    by (now rewrite forallb_app, quiet_header, quiet_batches).
  simpl.
  now rewrite rows_written_app, rows_written_header, rows_written_batches.
Qed.

(** Counterexample to the claim as stated: with two batches the second
    [get] comes while the rows of the first are still unflushed. *)
Lemma no_flush_between_batches : ~ flushes_each_batch.
Proof.
  intros H.
  specialize (H None [Some [row_a]; Some [row_b]; None]).
  vm_compute in H. discriminate.
Qed.

(** C5, amended. Sent any batches and then the sentinel, the writer
    returns; for each batch in turn it takes the batch, writes its rows in
    batch order and calls [task_done], and it closes the file after the
    sentinel.  It never calls [flush]: up to the close, no row of the run is
    known to be on disk; the close puts them all there, after what the file
    held before. *)
Theorem writer_batches_then_close (csv_file : Artifact)
  (batches : list (list Info)) (rest : list (option (list Info))) :
  let run := csv_writer_thread csv_file (map Some batches ++ None :: rest) in
  snd run = true
  /\ fst run
     = EExists (bool_decide (is_Some csv_file)) :: EOpenAppend
         :: map EWriteRow (header_if_new csv_file)
         ++ flat_map batch_events batches ++ [EGet None; EClose]
  /\ List.filter is_flush (fst run) = []
  /\ (forall k : nat,
        (2 <= k < List.length (fst run))%nat ->
        durable_after csv_file (fst run) k = Some (existing csv_file))
  /\ artifact_after csv_file (fst run)
     = Some (existing csv_file ++ map Rec (header_if_new csv_file)
               ++ rendered (concat batches)).
Proof.
  intros run. subst run. rewrite csv_writer_thread_events. simpl fst. simpl snd.
  set (body := map EWriteRow (header_if_new csv_file)
               ++ flat_map batch_events batches).
  assert (Hbody : forallb quiet body = true).
  { unfold body. now rewrite forallb_app, quiet_header, quiet_batches. }
  assert (Hrows : rows_written body
                  = map Rec (header_if_new csv_file)
                    ++ rendered (concat batches)).
  { unfold body.
    now rewrite rows_written_app, rows_written_header, rows_written_batches. }
  replace (map EWriteRow (header_if_new csv_file)
           ++ flat_map batch_events batches ++ [EGet None; EClose])
    with (body ++ [EGet None; EClose])
    by (unfold body; now rewrite <- app_assoc).
  repeat split.
  - simpl. rewrite List.filter_app.
    rewrite (no_flush_in_quiet body Hbody). reflexivity.
  - intros k [Hk2 Hklen]. simpl in Hklen. rewrite length_app in Hklen.
    simpl in Hklen.
    destruct k as [| [| k]]; try lia.
    unfold durable_after, artifact_after_kill, run_events.
    cbn [firstn fold_left file_step disk buffer].
    replace (body ++ [EGet None; EClose])
      with ((body ++ [EGet None]) ++ [EClose])
      by (now rewrite <- app_assoc).
    rewrite take_app_le by (rewrite length_app; simpl; lia).
    rewrite quiet_steps.
    + simpl. now rewrite app_nil_r.
    + apply quiet_firstn. now rewrite forallb_app, Hbody.
  - unfold artifact_after, run_events.
    cbn [fold_left file_step disk buffer].
    rewrite fold_left_app. rewrite (quiet_steps body) by exact Hbody.
    simpl. now rewrite Hrows.
Qed.

(** Two one-row batches into a new file: just before the close nothing is
    known to be on disk; after it the header and both rows are. *)
Lemma writer_batches_then_close_witness :
  durable_after None
    (fst (csv_writer_thread None [Some [row_a]; Some [row_b]; None])) 10
  = Some []
  /\ artifact_after None
       (fst (csv_writer_thread None [Some [row_a]; Some [row_b]; None]))
     = Some [Rec header; Rec (row_fields row_a); Rec (row_fields row_b)].
Proof.
  pose proof (writer_batches_then_close None [[row_a]; [row_b]] [])
    as (_ & _ & _ & Hdur & Hend).
  split.
  - apply (Hdur 10%nat). simpl. lia.
  - exact Hend.
Defined.

End WriterFacts.

(* ===================================================================== *)
(** ** The pipeline *)
(* ===================================================================== *)

Module PipelineFacts.

Import Inspector Discovery Csv Writer Pipeline Examples Stated.
Import InspectorFacts WriterFacts.

(** A task returns a record, whose path is the submitted path as
    [pathlib] prints it. *)
Lemma process_single_pdf_path (h : Host) (p : string) :
  exists res,
    process_single_pdf h p = Ok res /\ file_path res = path_str h p.
Proof.
  rewrite process_single_pdf_cases. unfold inspect_cases.
  destruct (stat_size h (path_str h p)) as [sz | m]; simpl;
    [destruct (sz <? 100); simpl;
       [| destruct (fitz_open h (path_str h p)) as [doc | m]; simpl;
          [destruct (doc_is_encrypted doc) as [[|] | m]; simpl;
             [| destruct (doc_page_count doc) as [pc | m]; simpl |] |]] |];
    (eexists; split; reflexivity).
Qed.

(** The results, when they all come, are one record for each task. *)
Lemma results_inv (h : Host) (order : list string) (rs : list Info) :
  results h order = Ok rs ->
  map file_path rs = map (path_str h) order.
Proof.
  revert rs. induction order as [| p order IH]; intros rs; simpl.
  - now intros [= <-].
  - destruct (worker_dies h p); [discriminate |].
    destruct (process_single_pdf_path h p) as (res & -> & Hp).
    destruct (results h order) as [more | m]; [| discriminate].
    intros [= <-]. simpl. now rewrite Hp, (IH more eq_refl).
Qed.

(** They all come when no worker dies. *)
Lemma results_total (h : Host) (order : list string) :
  (forall p, In p order -> worker_dies h p = false) ->
  exists rs, results h order = Ok rs.
Proof.
  induction order as [| p order IH]; intros Hlive; simpl.
  - now exists [].
  - rewrite (Hlive p) by now left.
    destruct (process_single_pdf_path h p) as (res & -> & _).
    destruct IH as (rs & ->); [intros q Hq; apply Hlive; now right |].
    now eexists.
Qed.

Lemma aggregate_step (r : Info) (a : Aggregator) (bs : list (list Info)) :
  queue a = map Some bs ->
  exists bs',
    queue (aggregate a r) = map Some bs'
    /\ concat bs' ++ batch_rows (aggregate a r)
       = concat bs ++ batch_rows a ++ [r].
Proof.
  intros Hq. unfold aggregate.
  destruct (BATCH_WRITE_SIZE <=? List.length (batch_rows a ++ [r]))%nat;
    simpl.
  - exists (bs ++ [batch_rows a ++ [r]]). split.
    + now rewrite Hq, map_app.
    + rewrite concat_app. simpl. now rewrite !app_nil_r.
  - exists bs. now split.
Qed.

(** The batches put on the queue are, end to end, the results in the order
    they arrived. *)
Lemma aggregate_fold (rs : list Info) (a : Aggregator)
  (bs : list (list Info)) :
  queue a = map Some bs ->
  exists bs',
    queue (fold_left aggregate rs a) = map Some bs'
    /\ concat bs' ++ batch_rows (fold_left aggregate rs a)
       = concat bs ++ batch_rows a ++ rs.
Proof.
  revert a bs. induction rs as [| r rs IH]; intros a bs Hq; simpl.
  - exists bs. now rewrite app_nil_r.
  - destruct (aggregate_step r a bs Hq) as (bs1 & Hq1 & Hc1).
    destruct (IH (aggregate a r) bs1 Hq1) as (bs' & Hq' & Hc).
    exists bs'. split; [exact Hq' |].
    rewrite Hc, app_assoc, Hc1. now rewrite <- !app_assoc.
Qed.

Lemma final_queue_batches (rs : list Info) :
  exists bs,
    final_queue (fold_left aggregate rs
                   {| batch_rows := []; queue := []; stats := initial_stats |})
    = map Some bs ++ [None]
    /\ concat bs = rs.
Proof.
  destruct (aggregate_fold rs
              {| batch_rows := []; queue := []; stats := initial_stats |} [])
    as (bs & Hq & Hc); [reflexivity |].
  simpl in Hc. unfold final_queue. rewrite Hq.
  destruct (batch_rows (fold_left aggregate rs _)) as [| r rows] eqn:Hb.
  - exists bs. split; [reflexivity |]. now rewrite app_nil_r in Hc.
  - exists (bs ++ [r :: rows]). split.
    + now rewrite map_app, <- app_assoc.
    + rewrite concat_app. simpl. now rewrite app_nil_r.
Qed.

(** What a run that ends has done: it loaded the ledger if asked to,
    submitted the paths not in it, and appended one row per result after
    what the file held, below a header if there was no file. *)
Lemma process_pdfs_inv (h : Host) (completion : list string -> list string)
  (root : string) (csv_file : Artifact) (workers : option Z) (resume : bool)
  (run : Run) :
  process_pdfs h completion root csv_file workers resume = Ok run ->
  pool_error (system h) (effective_workers h workers) = None
  /\ run_ledger run
     = (if resume then fst (load_processed_csv (system h) csv_file) else ∅)
  /\ run_pool run
     = pool_events (pdf_gen h root (run_ledger run))
                   (completion (pdf_gen h root (run_ledger run)))
  /\ exists rs,
       results h (completion (pdf_gen h root (run_ledger run))) = Ok rs
       /\ map file_path rs
          = map (path_str h) (completion (pdf_gen h root (run_ledger run)))
       /\ (exists bs,
            concat bs = rs
            /\ run_writer run
               = fst (csv_writer_thread csv_file (map Some bs ++ [None])))
       /\ run_artifact run
          = Some (existing csv_file ++ map Rec (header_if_new csv_file)
                    ++ rendered rs).
Proof.
  unfold process_pdfs.
  set (loaded := if resume then load_processed_csv (system h) csv_file
                 else (∅, [])).
  assert (Hl : fst loaded
               = if resume then fst (load_processed_csv (system h) csv_file)
                 else ∅) by (unfold loaded; now destruct resume).
  destruct loaded as [ledger log]. simpl in Hl.
  destruct (pool_error (system h) (effective_workers h workers)) eqn:Hn;
    [discriminate |].
  destruct (results h (completion (pdf_gen h root ledger)))
    as [rs | m] eqn:Hrs; [| discriminate].
  pose proof (results_inv _ _ _ Hrs) as Hpaths.
  destruct (final_queue_batches rs) as (bs & Hq & Hc). rewrite Hq.
  pose proof (writer_artifact csv_file bs []) as He.
  destruct (csv_writer_thread csv_file (map Some bs ++ [None]))
    as [evs fin] eqn:Hw.
  intros [= <-]. simpl in *.
  split; [reflexivity |]. split; [exact Hl |]. split; [reflexivity |].
  exists rs. split; [exact Hrs |]. split; [exact Hpaths |].
  split; [exists bs; split; [exact Hc | now rewrite Hw] |].
  now rewrite He, Hc.
Qed.

(** A run that the pool accepts and that finds nothing to submit gets to
    the end: there is no task to wait for. *)
Lemma process_pdfs_idle_ends (h : Host)
  (completion : list string -> list string) (root : string)
  (csv_file : Artifact) (workers : option Z) (resume : bool) :
  pool_error (system h) (effective_workers h workers) = None ->
  completion [] = [] ->
  pdf_gen h root
    (if resume then fst (load_processed_csv (system h) csv_file) else ∅) = [] ->
  exists run, process_pdfs h completion root csv_file workers resume = Ok run.
Proof.
  intros Hn Hnil Hgen. unfold process_pdfs.
  set (loaded := if resume then load_processed_csv (system h) csv_file
                 else (∅, [])).
  assert (Hl : fst loaded
               = if resume then fst (load_processed_csv (system h) csv_file)
                 else ∅) by (unfold loaded; now destruct resume).
  destruct loaded as [ledger log]. simpl in Hl. subst ledger.
  rewrite Hn, Hgen, Hnil. cbn [results fold_left].
  match goal with
  | |- context [csv_writer_thread ?a ?q] =>
      destruct (csv_writer_thread a q) as [evs fin]
  end.
  eexists. reflexivity.
Qed.

Lemma fair_nil (completion : list string -> list string) :
  fair completion -> completion [] = [].
Proof. intros Hfair. apply Permutation_nil. symmetry. apply Hfair. Qed.

(** C10. Empty run: when there is no artifact and the scan finds nothing,
    a run whose pool starts (the number of workers is one the pool
    accepts: positive, and at most 61 on Windows) gets to the point where
    the writer thread has been joined, and the artifact is then there and
    holds the header row and nothing else.  Nothing after that point
    touches the file. *)
Theorem empty_run_leaves_header_only (h : Host)
  (completion : list string -> list string) (root : string)
  (workers : option Z) (resume : bool) :
  pool_error (system h) (effective_workers h workers) = None ->
  fair completion ->
  find_pdf_files h root = [] ->
  exists run,
    process_pdfs h completion root None workers resume = Ok run
    /\ run_artifact run = Some [Rec header]
    /\ rows_written (run_writer run) = [Rec header].
Proof.
  intros Hn Hfair Hempty.
  pose proof (fair_nil completion Hfair) as Hnil.
  destruct (process_pdfs_idle_ends h completion root None workers resume Hn
              Hnil) as (run & Hrun).
  { unfold pdf_gen. now rewrite Hempty. }
  exists run. split; [exact Hrun |].
  apply process_pdfs_inv in Hrun
    as (_ & Hledger & _ & rs & Hrs & Hpaths & (bs & Hbs & Hw) & Hart).
  assert (Hgen : pdf_gen h root (run_ledger run) = []).
  { unfold pdf_gen. now rewrite Hempty. }
  rewrite Hgen in Hrs, Hpaths.
  rewrite Hnil in Hrs. simpl in Hrs. injection Hrs as <-.
  split; [exact Hart |].
  rewrite Hw.
  assert (Hb : flat_map batch_events bs
               = flat_map (fun _ => [EGet (Some []); ETaskDone]) bs).
  { clear Hw. induction bs as [| b bs IH]; [reflexivity |].
    simpl in Hbs. apply app_eq_nil in Hbs as [-> Hbs].
    simpl. now rewrite IH. }
  rewrite csv_writer_thread_events. simpl. rewrite Hb.
  clear. induction bs as [| b bs IH]; simpl; [reflexivity | exact IH].
Qed.

(** An empty directory, scanned with resume on and with resume off. *)
Lemma empty_run_leaves_header_only_witness :
  exists run,
    process_pdfs (posix_host "/data" [] true) (fun l => l) "/data" None
                 (Some 2) true = Ok run
    /\ run_artifact run = Some [Rec header]
    /\ rows_written (run_writer run) = [Rec header].
Proof.
  apply (empty_run_leaves_header_only (posix_host "/data" [] true)
           (fun l => l) "/data" (Some 2) true).
  - reflexivity.
  - intros l. apply Permutation_refl.
  - reflexivity.
Defined.

(** Where the pool refuses the number of workers the run does not get
    that far.  On the Windows machine of the examples the default number,
    one worker per processor, is refused at line 192; the writer thread,
    started before, has at most created the file, and with nothing flushed
    the file is then empty. *)
Lemma empty_run_refused :
  process_pdfs big_windows_host (fun l => l) "D:/scans" None None true
  = Err "max_workers must be <= 61"
  /\ (forall k, left_by_refusal None k 0 = None
                \/ left_by_refusal None k 0 = Some []).
Proof.
  split; [reflexivity |].
  intros [| [| [| [| k]]]]; (now left) || (now right).
Qed.

(** What the pool's refusal leaves on disk is what a kill of a run that
    was accepted can leave: the writer thread has gone through the same
    first events. *)
Lemma refusal_is_a_kill (csv_file : Artifact) (bs : list (list Info))
  (k j : nat) :
  exists k',
    left_by_refusal csv_file k j
    = artifact_after_kill csv_file
        (fst (csv_writer_thread csv_file (map Some bs ++ [None]))) k' j.
Proof.
  rewrite csv_writer_thread_events. unfold left_by_refusal.
  destruct csv_file as [lines |].
  - destruct k as [| [| k]];
      [exists 0%nat | exists 1%nat | exists 2%nat];
      unfold artifact_after_kill; simpl; rewrite ?firstn_nil; reflexivity.
  - destruct k as [| [| [| k]]];
      [exists 0%nat | exists 1%nat | exists 2%nat | exists 3%nat];
      unfold artifact_after_kill; simpl; rewrite ?firstn_nil; reflexivity.
Qed.

(** *** The header *)

Lemma rendered_plain (rs : list Info) : Forall plain (rendered rs).
Proof.
  induction rs as [| r rs IH]; constructor; [| exact IH].
  unfold plain, is_header. apply bool_decide_eq_false_2.
  unfold row_fields, header. intros [= _ _ Hbool].
  destruct (can_open r); discriminate.
Qed.

Lemma header_count_plain (rows : list Line) :
  Forall plain rows -> header_count (Some rows) = 0%nat.
Proof.
  unfold header_count. simpl.
  induction 1 as [| l rows Hl _ IH]; simpl; [reflexivity |].
  unfold plain in Hl. now rewrite Hl.
Qed.

Lemma plain_of_header_count (rows : list Line) :
  header_count (Some rows) = 0%nat -> Forall plain rows.
Proof.
  unfold header_count. simpl.
  induction rows as [| l rows IH]; simpl; [constructor |].
  unfold plain. destruct (is_header l) eqn:Hl; simpl; [discriminate |].
  intros H. constructor; [exact Hl | now apply IH].
Qed.

Lemma rows_written_firstn (n : nat) (evs : list Event) :
  exists m, rows_written (firstn n evs) = firstn m (rows_written evs).
Proof.
  revert n. induction evs as [| e evs IH]; intros [| n]; simpl;
    try (exists 0%nat; reflexivity).
  destruct (IH n) as (m & Hm).
  destruct e; simpl; try (exists m; exact Hm).
  exists (S m). simpl. now rewrite Hm.
Qed.

(** What a kill leaves: the file as it was, or what it held followed by
    some first rows of those the run was to write. *)
Lemma kill_leaves_prefix (a : Artifact) (bs : list (list Info)) (k j : nat) :
  let evs := fst (csv_writer_thread a (map Some bs ++ [None])) in
  artifact_after_kill a evs k j = a
  \/ exists m,
       artifact_after_kill a evs k j
       = Some (existing a
                 ++ firstn m (map Rec (header_if_new a)
                                ++ rendered (concat bs))).
Proof.
  intros evs. subst evs. rewrite csv_writer_thread_events. simpl fst.
  set (body := map EWriteRow (header_if_new a) ++ flat_map batch_events bs).
  assert (Hbody : forallb quiet body = true).
  { unfold body. now rewrite forallb_app, quiet_header, quiet_batches. }
  assert (Hrows : rows_written body
                  = map Rec (header_if_new a) ++ rendered (concat bs)).
  { unfold body.
    now rewrite rows_written_app, rows_written_header, rows_written_batches. }
  replace (map EWriteRow (header_if_new a)
           ++ flat_map batch_events bs ++ [EGet None; EClose])
    with ((body ++ [EGet None]) ++ [EClose])
    by (unfold body; now rewrite <- !app_assoc).
  rewrite <- Hrows.
  unfold artifact_after_kill, run_events.
  destruct k as [| [| k]].
  - left. simpl. destruct a as [l |]; [| reflexivity].
    now rewrite firstn_nil, app_nil_r.
  - left. simpl. destruct a as [l |]; [| reflexivity].
    now rewrite firstn_nil, app_nil_r.
  - right. cbn [firstn fold_left file_step disk buffer].
    destruct (Nat.le_gt_cases k (List.length (body ++ [EGet None])))
      as [Hle | Hgt].
    + rewrite take_app_le by exact Hle.
      rewrite quiet_steps
        by (apply quiet_firstn; now rewrite forallb_app, Hbody).
      simpl.
      destruct (rows_written_firstn k (body ++ [EGet None])) as (m & Hm).
      rewrite Hm, rows_written_app. simpl. rewrite app_nil_r.
      exists (Nat.min j m). now rewrite firstn_firstn.
    + rewrite firstn_all2 by (rewrite length_app; simpl; lia).
      rewrite !fold_left_app.
      rewrite (quiet_steps body) by exact Hbody. simpl.
      exists (List.length (rows_written body)).
      now rewrite firstn_nil, app_nil_r, firstn_all.
Qed.

Lemma header_once_app (rows more : list Line) :
  header_once (Some rows) -> Forall plain more ->
  header_once (Some (rows ++ more)).
Proof.
  intros (rest & [= ->] & Hrest) Hmore.
  exists (rest ++ more). split; [reflexivity |].
  apply header_count_plain, Forall_app. split; [| exact Hmore].
  now apply plain_of_header_count.
Qed.




(** *** Submission *)

Lemma peak_ge (c : nat) (evs : list PoolEvent) :
  (c <= peak_in_flight c evs)%nat.
Proof. destruct evs as [| [] evs]; simpl; lia. Qed.

Lemma peak_submits (l : list string) (c : nat) (evs : list PoolEvent) :
  peak_in_flight c (map Submit l ++ evs)
  = peak_in_flight (c + List.length l) evs.
Proof.
  revert c. induction l as [| p l IH]; intros c; simpl.
  - f_equal. lia.
  - rewrite IH. pose proof (peak_ge (S c + List.length l) evs).
    replace (c + S (List.length l))%nat with (S c + List.length l)%nat by lia.
    lia.
Qed.

Lemma peak_consumes (o : list string) (c : nat) (evs : list PoolEvent) :
  peak_in_flight c (map Consume o ++ evs)
  = Nat.max c (peak_in_flight (c - List.length o) evs).
Proof.
  revert c. induction o as [| p o IH]; intros c; simpl.
  - rewrite Nat.sub_0_r. pose proof (peak_ge c evs). lia.
  - rewrite IH.
    replace (Nat.pred c - List.length o)%nat
      with (c - S (List.length o))%nat by lia.
    lia.
Qed.

(** A batch submitted and then drained: the in-flight count climbs to the
    size of the batch and is back where it was. *)
Lemma peak_pool_events (s o : list string) (evs : list PoolEvent) :
  List.length o = List.length s ->
  peak_in_flight 0 (pool_events s o ++ evs)
  = Nat.max (List.length s) (peak_in_flight 0 evs).
Proof.
  intros Hlen. unfold pool_events.
  rewrite <- app_assoc, peak_submits, peak_consumes, Hlen. simpl.
  now rewrite Nat.sub_diag.
Qed.

(** C4. In version 6 the dictionary comprehension of line 194 submits
    every path the generator yields before the first result is taken: the
    number of tasks in flight reaches the number of files to process,
    whatever the worker count. *)
Theorem v6_in_flight_is_whole_stream (h : Host)
  (completion : list string -> list string) (root : string)
  (csv_file : Artifact) (workers : option Z) (resume : bool) (run : Run) :
  process_pdfs h completion root csv_file workers resume = Ok run ->
  peak_in_flight 0 (run_pool run)
  = List.length (pdf_gen h root (run_ledger run)).
Proof.
  intros Hrun. apply process_pdfs_inv in Hrun as (_ & _ & -> & _).
  unfold pool_events. rewrite peak_submits. simpl.
  rewrite <- (app_nil_r (map Consume _)), peak_consumes. simpl.
  lia.
Qed.

(** Eleven files and one worker: eleven tasks in flight, above ten times
    the worker count. *)
Lemma v6_in_flight_is_whole_stream_witness :
  exists run,
    process_pdfs (posix_host "/data" eleven true) (fun l => l) "/data" None
                 (Some 1) true = Ok run
    /\ effective_workers (posix_host "/data" eleven true) (Some 1) = 1
    /\ peak_in_flight 0 (run_pool run) = 11%nat.
Proof.
  destruct (process_pdfs (posix_host "/data" eleven true) (fun l => l)
              "/data" None (Some 1) true) as [run | m] eqn:Hrun;
    [| vm_compute in Hrun; discriminate].
  exists run. split; [reflexivity |]. split; [reflexivity |].
  rewrite (v6_in_flight_is_whole_stream _ _ _ _ _ _ _ Hrun).
  replace (run_ledger run)
    with (match process_pdfs (posix_host "/data" eleven true) (fun l => l)
                  "/data" None (Some 1) true
          with Ok r => run_ledger r | Err _ => ∅ end)
    by (now rewrite Hrun).
  vm_compute. reflexivity.
Defined.

(** Version 2 does what the claim says: with batches of [batch_size]
    paths, each drained before the next is submitted, at most [batch_size]
    tasks are in flight. *)
Lemma v2_in_flight_bounded (completion : list string -> list string)
  (batch_size : nat) (gen pdf_batch : list string) :
  fair completion ->
  (List.length pdf_batch < batch_size)%nat ->
  (peak_in_flight 0 (v2_pool_events completion batch_size pdf_batch gen)
   <= batch_size)%nat.
Proof.
  intros Hfair. revert pdf_batch.
  induction gen as [| pdf gen IH]; intros pdf_batch Hlen; simpl.
  - rewrite <- (app_nil_r (pool_events _ _)).
    rewrite peak_pool_events by (apply Permutation_length, Hfair).
    simpl. lia.
  - destruct (batch_size <=? List.length (pdf_batch ++ [pdf]))%nat eqn:Hfull.
    + rewrite peak_pool_events by (apply Permutation_length, Hfair).
      rewrite length_app in *. simpl in *.
      specialize (IH [] ltac:(simpl; lia)). lia.
    + apply Nat.leb_gt in Hfull. now apply IH.
Qed.

Lemma v2_in_flight_bounded_workers
  (completion : list string -> list string) (workers : Z)
  (gen : list string) :
  fair completion -> 0 < workers ->
  (peak_in_flight 0
     (v2_pool_events completion (v2_batch_size workers) [] gen)
   <= 10 * Z.to_nat workers)%nat.
Proof.
  intros Hfair Hw.
  assert (Hb : v2_batch_size workers = (10 * Z.to_nat workers)%nat)
    by (unfold v2_batch_size; lia).
  rewrite <- Hb. apply v2_in_flight_bounded; [exact Hfair |].
  simpl. lia.
Qed.

(** *** Resume *)

(** C1. The failing input.  One PDF in the current directory, scanned as
    [.] on a POSIX host with [find]: the generator yields [./a.pdf], the
    row records [a.pdf].  The second run, resume on, loads the ledger
    [{a.pdf}], does not find [./a.pdf] in it, inspects the file again and
    appends a second row: the identity [a.pdf] stands twice in the
    artifact. *)
Theorem resume_repeats_under_dot_root :
  exists run1 run2,
    process_pdfs dot_host (fun l => l) "." None None true = Ok run1
    /\ process_pdfs dot_host (fun l => l) "." (run_artifact run1) None true
       = Ok run2
    /\ find_pdf_files dot_host "." = ["./a.pdf"]
    /\ recorded Linux (run_artifact run1) = ["a.pdf"]
    /\ elements (run_ledger run2) = ["a.pdf"]
    /\ recorded Linux (run_artifact run2) = ["a.pdf"; "a.pdf"]
    /\ List.length (data_rows (run_artifact run2))
       = S (List.length (data_rows (run_artifact run1))).
Proof.
  destruct (process_pdfs dot_host (fun l => l) "." None None true)
    as [run1 | m] eqn:H1; [| vm_compute in H1; discriminate].
  assert (Ha : run_artifact run1
               = Some [Rec header;
                       Rec ["a.pdf"; "2048"; "True"; "5"; "0.0"; ""; "S-S"]]).
  { replace (run_artifact run1)
      with (match process_pdfs dot_host (fun l => l) "." None None true
            with Ok r => run_artifact r | Err _ => None end)
      by (now rewrite H1).
    vm_compute. reflexivity. }
  exists run1. rewrite Ha.
  destruct (process_pdfs dot_host (fun l => l) "."
              (Some [Rec header;
                     Rec ["a.pdf"; "2048"; "True"; "5"; "0.0"; ""; "S-S"]])
              None true)
    as [run2 | m] eqn:H2; [| vm_compute in H2; discriminate].
  exists run2. split; [reflexivity |]. split; [reflexivity |].
  split; [vm_compute; reflexivity |].
  split; [vm_compute; reflexivity |].
  assert (Hrun2 : forall A (f : Run -> A) (d : A),
             f run2 = match process_pdfs dot_host (fun l => l) "."
                              (Some [Rec header;
                                     Rec ["a.pdf"; "2048"; "True"; "5"; "0.0";
                                          ""; "S-S"]]) None true
                      with Ok r => f r | Err _ => d end)
    by (intros; now rewrite H2).
  split; [| split].
  - rewrite (Hrun2 _ (fun r => elements (run_ledger r)) []).
    vm_compute. reflexivity.
  - rewrite (Hrun2 _ (fun r => recorded Linux (run_artifact r)) []).
    vm_compute. reflexivity.
  - rewrite (Hrun2 _ (fun r => List.length (data_rows (run_artifact r)))
               0%nat).
    vm_compute. reflexivity.
Qed.

(** The same file scanned as [/data]: the second run adds nothing. *)
Lemma resume_adds_nothing_under_data :
  exists run1 run2,
    process_pdfs data_host (fun l => l) "/data" None None true = Ok run1
    /\ process_pdfs data_host (fun l => l) "/data" (run_artifact run1)
                    None true = Ok run2
    /\ run_artifact run2 = run_artifact run1
    /\ recorded Linux (run_artifact run2) = ["/data/a.pdf"].
Proof.
  destruct (process_pdfs data_host (fun l => l) "/data" None None true)
    as [run1 | m] eqn:H1; [| vm_compute in H1; discriminate].
  assert (Ha : run_artifact run1
               = Some [Rec header; Rec (row_fields row_a)]).
  { replace (run_artifact run1)
      with (match process_pdfs data_host (fun l => l) "/data" None None true
            with Ok r => run_artifact r | Err _ => None end)
      by (now rewrite H1).
    vm_compute. reflexivity. }
  exists run1. rewrite Ha.
  destruct (process_pdfs data_host (fun l => l) "/data"
              (Some [Rec header; Rec (row_fields row_a)]) None true)
    as [run2 | m] eqn:H2; [| vm_compute in H2; discriminate].
  exists run2. split; [reflexivity |]. split; [reflexivity |].
  assert (Hb : run_artifact run2
               = match process_pdfs data_host (fun l => l) "/data"
                         (Some [Rec header; Rec (row_fields row_a)]) None true
                 with Ok r => run_artifact r | Err _ => None end)
    by (now rewrite H2).
  rewrite Hb. split; vm_compute; reflexivity.
Qed.

End PipelineFacts.

(* ===================================================================== *)
(** ** Discoverer *)
(* ===================================================================== *)

Module DiscoveryFacts.

Import Discovery Examples.

(** C7. The failing inputs.  Under [/data] a directory named
    [scans.pdf]: [find -type f] does not print it, [rglob] yields it.
    A PDF in the current directory scanned as [.]: [find] prints
    [./a.pdf], [rglob] yields [a.pdf].  In both cases the two paths of
    [find_pdf_files] give different sets of normalized identities. *)
Theorem find_and_rglob_differ :
  let with_find := posix_host "/data" scans_tree true in
  let without_find := posix_host "/data" scans_tree false in
  find_pdf_files with_find "/data" = []
  /\ find_pdf_files without_find "/data" = ["/data/scans.pdf"]
  /\ identities Linux (find_pdf_files with_find "/data")
     <> identities Linux (find_pdf_files without_find "/data")
  /\ find_pdf_files (posix_host "." dot_tree true) "." = ["./a.pdf"]
  /\ find_pdf_files (posix_host "." dot_tree false) "." = ["a.pdf"]
  /\ identities Linux (find_pdf_files (posix_host "." dot_tree true) ".")
     <> identities Linux (find_pdf_files (posix_host "." dot_tree false) ".").
Proof.
  intros with_find without_find.
  assert (H1 : find_pdf_files with_find "/data" = [])
    by (vm_compute; reflexivity).
  assert (H2 : find_pdf_files without_find "/data" = ["/data/scans.pdf"])
    by (vm_compute; reflexivity).
  assert (H3 : find_pdf_files (posix_host "." dot_tree true) "."
               = ["./a.pdf"]) by (vm_compute; reflexivity).
  assert (H4 : find_pdf_files (posix_host "." dot_tree false) "."
               = ["a.pdf"]) by (vm_compute; reflexivity).
  rewrite H1, H2, H3, H4.
  repeat split.
  - intros Heq.
    assert (Hin : "/data/scans.pdf" ∈ identities Linux [])
      by (rewrite Heq; unfold identities; simpl; set_solver).
    unfold identities in Hin. simpl in Hin. set_solver.
  - intros Heq.
    assert (Hin : "a.pdf" ∈ identities Linux ["./a.pdf"])
      by (rewrite Heq; unfold identities; simpl; set_solver).
    unfold identities in Hin. simpl in Hin.
    apply elem_of_union in Hin as [Hin | Hin]; [| set_solver].
    apply elem_of_singleton in Hin. discriminate.
Qed.

End DiscoveryFacts.

(* ===================================================================== *)
(** ** Resume, when the recorded path is the discovered path *)
(* ===================================================================== *)

Module ResumeFacts.

Import Inspector Discovery Csv Writer Pipeline Examples Derived.
Import LedgerFacts PipelineFacts.

(** What a pass of the [rglob] loop yields: paths whose identities are
    new and pairwise different, all of them added to [seen]. *)
Lemma rglob_loop_fresh (sys : System) (paths : list string)
  (seen : gset string) :
  NoDup (map (PyStr.normcase sys) (fst (rglob_loop sys seen paths)))
  /\ (forall y, y ∈ fst (rglob_loop sys seen paths) ->
      PyStr.normcase sys y ∉ seen)
  /\ snd (rglob_loop sys seen paths)
     = list_to_set (map (PyStr.normcase sys)
                        (fst (rglob_loop sys seen paths))) ∪ seen.
Proof.
  revert seen. induction paths as [| p paths IH]; intros seen; simpl.
  - split; [constructor |]. split; [intros y Hy; inversion Hy | set_solver].
  - case_bool_decide as Hseen; [apply IH |].
    specialize (IH ({[PyStr.normcase sys p]} ∪ seen)).
    destruct (rglob_loop sys ({[PyStr.normcase sys p]} ∪ seen) paths)
      as [ys seen'].
    simpl in *. destruct IH as (Hnd & Hnew & ->).
    split; [| split].
    + constructor; [| exact Hnd].
      intros Hin. apply list_elem_of_fmap in Hin as (y & Heq & Hy).
      apply Hnew in Hy. rewrite <- Heq in Hy. set_solver.
    + intros y Hy. apply elem_of_cons in Hy as [-> | Hy]; [exact Hseen |].
      apply Hnew in Hy. set_solver.
    + set_solver.
Qed.

Lemma find_loop_fresh (sys : System) (lines : list string)
  (seen : gset string) :
  NoDup (map (PyStr.normcase sys) (fst (find_loop sys seen lines)))
  /\ (forall y, y ∈ fst (find_loop sys seen lines) ->
      PyStr.normcase sys y ∉ seen)
  /\ snd (find_loop sys seen lines)
     = list_to_set (map (PyStr.normcase sys)
                        (fst (find_loop sys seen lines))) ∪ seen.
Proof.
  revert seen. induction lines as [| line lines IH]; intros seen; simpl.
  - split; [constructor |]. split; [intros y Hy; inversion Hy | set_solver].
  - destruct (String.eqb (PyStr.strip line) ""); [apply IH |].
    case_bool_decide as Hseen; [apply IH |].
    specialize (IH ({[PyStr.normcase sys (PyStr.strip line)]} ∪ seen)).
    destruct (find_loop sys
                ({[PyStr.normcase sys (PyStr.strip line)]} ∪ seen) lines)
      as [ys seen'].
    simpl in *. destruct IH as (Hnd & Hnew & ->).
    split; [| split].
    + constructor; [| exact Hnd].
      intros Hin. apply list_elem_of_fmap in Hin as (y & Heq & Hy).
      apply Hnew in Hy. rewrite <- Heq in Hy. set_solver.
    + intros y Hy. apply elem_of_cons in Hy as [-> | Hy]; [exact Hseen |].
      apply Hnew in Hy. set_solver.
    + set_solver.
Qed.

(** No duplication within a scan: the identities of the paths a scan
    yields are pairwise different, on every branch, the fallback after a
    failed [find] included. *)
Lemma find_pdf_files_distinct (h : Host) (root : string) :
  NoDup (map (PyStr.normcase (system h)) (find_pdf_files h root)).
Proof.
  unfold find_pdf_files.
  destruct (is_windows (system h)); [apply rglob_loop_fresh |].
  pose proof (find_loop_fresh (system h)
                (fo_lines (find_cmd h (path_str h root))) ∅)
    as (Hnd & _ & Hseen).
  destruct (find_loop (system h) ∅ (fo_lines (find_cmd h (path_str h root))))
    as [ys seen].
  simpl in *. destruct (fo_raises _); [| exact Hnd].
  pose proof (rglob_loop_fresh (system h) (rglob h (path_str h root)) seen)
    as (Hnd2 & Hnew2 & _).
  rewrite map_app. apply NoDup_app. split; [exact Hnd |].
  split; [| exact Hnd2].
  intros x Hx1 Hx2.
  apply list_elem_of_fmap in Hx2 as (y & -> & Hy).
  apply Hnew2 in Hy. apply Hy. rewrite Hseen. set_solver.
Qed.

Lemma pdf_gen_no_ledger (h : Host) (root : string) :
  pdf_gen h root ∅ = find_pdf_files h root.
Proof.
  unfold pdf_gen. induction (find_pdf_files h root) as [| p l IH]; simpl;
    [reflexivity |].
  rewrite IH. case_bool_decide as Hin; [set_solver | reflexivity].
Qed.

Lemma reloaded_rendered (sys : System) (rs : list Info) :
  Forall (fun r => PyStr.universal_newlines (file_path r) <> "") rs ->
  omap (loaded_identity sys) (rendered rs)
  = map (fun r => PyStr.normcase sys (PyStr.universal_newlines (file_path r)))
        rs.
Proof.
  induction 1 as [| r rs Hr _ IH]; [reflexivity |].
  change (omap (loaded_identity sys) (rendered (r :: rs)))
    with (match loaded_identity sys (Rec (row_fields r)) with
          | Some y => y :: omap (loaded_identity sys) (rendered rs)
          | None => omap (loaded_identity sys) (rendered rs)
          end).
  cbn [loaded_identity row_fields map].
  apply String.eqb_neq in Hr. rewrite Hr. f_equal. exact IH.
Qed.

(** X23. The nearby statement that holds.  Take a run that starts from no
    artifact and gets to its end, every row it has written being one the
    reader parses (no field over its limit).  If the path written for each
    discovered file, [str(Path(p))], is read back from the artifact not
    empty and with the identity of [p] (so it holds no carriage return,
    which would come back as a line feed), then the load takes each
    identity once from the artifact, and a second run with resume on, on
    the same host and with a number of workers the pool accepts, gets to
    its end and leaves the artifact as it was. *)
Theorem resume_adds_nothing_when_paths_stable (h : Host)
  (c1 c2 : list string -> list string) (root : string)
  (w1 w2 : option Z) (resume1 : bool) (run1 : Run) :
  fair c1 -> fair c2 ->
  (forall p, In p (find_pdf_files h root) ->
     read_back h p <> ""
     /\ PyStr.normcase (system h) (read_back h p)
        = PyStr.normcase (system h) p) ->
  process_pdfs h c1 root None w1 resume1 = Ok run1 ->
  Forall readable (data_rows (run_artifact run1)) ->
  pool_error (system h) (effective_workers h w2) = None ->
  NoDup (reloaded (system h) (run_artifact run1))
  /\ exists run2,
       process_pdfs h c2 root (run_artifact run1) w2 true = Ok run2
       /\ run_artifact run2 = run_artifact run1.
Proof.
  intros Hc1 Hc2 Hstable Hrun1 Hread Hw2.
  apply process_pdfs_inv in Hrun1
    as (_ & Hledger1 & _ & rs1 & _ & Hpaths1 & _ & Hart1).
  assert (Hl1 : run_ledger run1 = ∅) by (now destruct resume1).
  rewrite Hl1, pdf_gen_no_ledger in Hpaths1.
  set (found := find_pdf_files h root) in *.
  set (sys := system h) in *.
  simpl in Hart1.
  rewrite Hart1 in Hread. unfold data_rows in Hread. simpl in Hread.
  (* the identities read back are those of the discovered paths *)
  assert (Hperm : Permutation (c1 found) found) by apply Hc1.
  assert (Hfp : Forall (fun r => PyStr.universal_newlines (file_path r) <> "")
                       rs1).
  { apply Forall_forall. intros r Hr. apply list_elem_of_In in Hr.
    apply (in_map file_path) in Hr. rewrite Hpaths1 in Hr.
    apply in_map_iff in Hr as (p & <- & Hp).
    apply Hstable. eapply Permutation_in; [exact Hperm | exact Hp]. }
  assert (Hids : map (fun r => PyStr.normcase sys
                                 (PyStr.universal_newlines (file_path r))) rs1
                 = map (PyStr.normcase sys) (c1 found)).
  { rewrite <- (map_map file_path
                  (fun q => PyStr.normcase sys (PyStr.universal_newlines q))),
      Hpaths1, map_map.
    apply map_ext_in. intros p Hp. apply Hstable.
    eapply Permutation_in; [exact Hperm | exact Hp]. }
  assert (Hrec : reloaded sys (run_artifact run1)
                 = map (PyStr.normcase sys) (c1 found)).
  { unfold reloaded, data_rows. rewrite Hart1. simpl.
    now rewrite reloaded_rendered. }
  split.
  { rewrite Hrec.
    assert (Hp : Permutation (map (PyStr.normcase sys) (c1 found))
                             (map (PyStr.normcase sys) found))
      by apply Permutation_map, Hperm.
    rewrite Hp. apply find_pdf_files_distinct. }
  (* the second run: its ledger holds every discovered identity *)
  assert (Hl2 : fst (load_processed_csv sys (run_artifact run1))
                = list_to_set (map (PyStr.normcase sys) (c1 found))).
  { rewrite Hart1.
    change (Some (existing None ++ map Rec (header_if_new None)
                    ++ rendered rs1))
      with (Some (Rec header :: rendered rs1)).
    rewrite (load_good_rows sys (rendered rs1)) by exact Hread.
    cbn [fst].
    now rewrite reloaded_rendered, Hids. }
  assert (Hgen : pdf_gen h root
                   (fst (load_processed_csv sys (run_artifact run1))) = []).
  { unfold pdf_gen. fold found. fold sys.
    assert (Hall : forall p, In p found ->
                     PyStr.normcase sys p
                     ∈ fst (load_processed_csv sys (run_artifact run1))).
    { intros p Hp. rewrite Hl2. apply elem_of_list_to_set.
      apply list_elem_of_In, in_map.
      eapply Permutation_in; [symmetry; exact Hperm | exact Hp]. }
    clear -Hall. induction found as [| p l IH]; simpl; [reflexivity |].
    rewrite bool_decide_eq_true_2 by (apply Hall; now left). simpl.
    apply IH. intros q Hq. apply Hall. now right. }
  pose proof (fair_nil c2 Hc2) as Hnil.
  destruct (process_pdfs_idle_ends h c2 root (run_artifact run1) w2 true
              Hw2 Hnil Hgen) as (run2 & Hrun2).
  exists run2. split; [exact Hrun2 |].
  apply process_pdfs_inv in Hrun2
    as (_ & Hledger2 & _ & rs2 & Hrs2 & _ & _ & Hart2).
  rewrite Hledger2 in Hrs2. fold sys in Hrs2. rewrite Hgen, Hnil in Hrs2.
  simpl in Hrs2. injection Hrs2 as <-.
  rewrite Hart2, Hart1. simpl. now rewrite app_nil_r.
Qed.

(** The file under [/data]: its identity is taken once from the artifact,
    and the resumed run adds nothing. *)
Lemma resume_adds_nothing_when_paths_stable_witness :
  exists run1 run2,
    process_pdfs data_host (fun l => l) "/data" None None true = Ok run1
    /\ NoDup (reloaded Linux (run_artifact run1))
    /\ process_pdfs data_host (fun l => l) "/data" (run_artifact run1)
                    None true = Ok run2
    /\ run_artifact run2 = run_artifact run1.
Proof.
  destruct (process_pdfs data_host (fun l => l) "/data" None None true)
    as [run1 | m] eqn:H1; [| vm_compute in H1; discriminate].
  destruct (resume_adds_nothing_when_paths_stable data_host
              (fun l => l) (fun l => l) "/data" None None true run1)
    as (Hnd & run2 & H2 & Hsame).
  - intros l. apply Permutation_refl.
  - intros l. apply Permutation_refl.
  - intros p Hp.
    assert (Hf : find_pdf_files data_host "/data" = ["/data/a.pdf"])
      by (vm_compute; reflexivity).
    rewrite Hf in Hp. destruct Hp as [<- | []].
    split; [discriminate | reflexivity].
  - exact H1.
  - replace (run_artifact run1)
      with (match process_pdfs data_host (fun l => l) "/data" None None true
            with
            | Ok r => run_artifact r
            | Err _ => None
            end) by (now rewrite H1).
    vm_compute. repeat constructor.
  - reflexivity.
  - exists run1, run2. repeat split; assumption.
Defined.

End ResumeFacts.

(* ===================================================================== *)
(** ** Further properties: the scan *)
(* ===================================================================== *)

Module ScanFacts.

Import Discovery Derived.
Import ResumeFacts.

Ltac hide_sets :=
  repeat match goal with
         | |- context [list_to_set ?l] =>
             let X := fresh "X" in
             set (X := list_to_set l : gset string) in *; clearbody X
         | H : context [list_to_set ?l] |- _ =>
             let X := fresh "X" in
             set (X := list_to_set l : gset string) in *; clearbody X
         end.

Ltac set_eq_with H :=
  let x := fresh "x" in
  apply set_eq; intros x; rewrite set_eq in H; specialize (H x); set_solver.

Lemma rglob_loop_covers (sys : System) (paths : list string)
  (seen : gset string) :
  fst (rglob_loop sys seen paths) `sublist_of` paths
  /\ list_to_set (map (PyStr.normcase sys)
                      (fst (rglob_loop sys seen paths))) ∪ seen
     = list_to_set (map (PyStr.normcase sys) paths) ∪ seen.
Proof.
  revert seen. induction paths as [| p paths IH]; intros seen; simpl.
  - split; [constructor | reflexivity].
  - case_bool_decide as Hseen.
    + destruct (IH seen) as (Hsub & Hset). split.
      * now apply sublist_cons.
      * simpl. hide_sets. clear -Hseen Hset. set_eq_with Hset.
    + specialize (IH ({[PyStr.normcase sys p]} ∪ seen)).
      destruct (rglob_loop sys ({[PyStr.normcase sys p]} ∪ seen) paths)
        as [ys seen'].
      simpl in *. destruct IH as (Hsub & Hset). split.
      * now apply sublist_skip.
      * simpl. hide_sets. clear -Hseen Hset. set_eq_with Hset.
Qed.

Lemma find_loop_covers (sys : System) (lines : list string)
  (seen : gset string) :
  fst (find_loop sys seen lines) `sublist_of` nonempty_stripped lines
  /\ list_to_set (map (PyStr.normcase sys)
                      (fst (find_loop sys seen lines))) ∪ seen
     = list_to_set (map (PyStr.normcase sys) (nonempty_stripped lines))
       ∪ seen.
Proof.
  unfold nonempty_stripped.
  revert seen. induction lines as [| line lines IH]; intros seen; simpl.
  - split; [constructor | reflexivity].
  - destruct (String.eqb (PyStr.strip line) "") eqn:Hempty; simpl;
      [apply IH |].
    case_bool_decide as Hseen.
    + destruct (IH seen) as (Hsub & Hset). split.
      * now apply sublist_cons.
      * simpl. hide_sets. clear -Hseen Hset. set_eq_with Hset.
    + specialize (IH ({[PyStr.normcase sys (PyStr.strip line)]} ∪ seen)).
      destruct (find_loop sys
                  ({[PyStr.normcase sys (PyStr.strip line)]} ∪ seen) lines)
        as [ys seen'].
      simpl in *. destruct IH as (Hsub & Hset). split.
      * now apply sublist_skip.
      * simpl. hide_sets. clear -Hseen Hset. set_eq_with Hset.
Qed.

(** X1. Within one scan no identity is yielded twice: the normalized forms
    of the paths [find_pdf_files] yields are pairwise different, on Windows,
    with [find], and when the scan falls back to [rglob] after [find] has
    already delivered paths. *)
Theorem scan_identities_distinct (h : Host) (root : string) :
  NoDup (map (PyStr.normcase (system h)) (find_pdf_files h root)).
Proof. apply find_pdf_files_distinct. Qed.

Lemma first_of_each_app (norm : string -> string)
  (before l1 l2 : list string) :
  first_of_each norm before (l1 ++ l2)
  = first_of_each norm before l1 ++ first_of_each norm (before ++ l1) l2.
Proof.
  revert before. induction l1 as [| p l1 IH]; intros before; simpl.
  - now rewrite app_nil_r.
  - rewrite IH, <- !app_assoc. reflexivity.
Qed.

(** The set [seen] stands for the identities of the paths looked at so
    far: the loop yields a path exactly when none of them had its
    identity. *)
Lemma rglob_loop_firsts (sys : System) (paths before : list string)
  (seen : gset string) :
  (forall x, x ∈ seen <-> x ∈ map (PyStr.normcase sys) before) ->
  fst (rglob_loop sys seen paths)
  = first_of_each (PyStr.normcase sys) before paths.
Proof.
  revert before seen.
  induction paths as [| p paths IH]; intros before seen Hseen; simpl;
    [reflexivity |].
  rewrite (bool_decide_ext _ _ (Hseen (PyStr.normcase sys p))).
  case_bool_decide as Hin.
  - apply IH. intros x. rewrite map_app, elem_of_app, <- Hseen. simpl.
    rewrite list_elem_of_singleton. split; [tauto |].
    intros [Hx | ->]; [exact Hx | now apply Hseen].
  - specialize (IH (before ++ [p]) ({[PyStr.normcase sys p]} ∪ seen)).
    destruct (rglob_loop sys ({[PyStr.normcase sys p]} ∪ seen) paths)
      as [ys seen'].
    simpl in *. f_equal. apply IH.
    intros x. rewrite map_app, elem_of_app, <- Hseen. simpl.
    rewrite list_elem_of_singleton. set_solver.
Qed.

Lemma find_loop_firsts (sys : System) (lines before : list string)
  (seen : gset string) :
  (forall x, x ∈ seen <-> x ∈ map (PyStr.normcase sys) before) ->
  fst (find_loop sys seen lines)
  = first_of_each (PyStr.normcase sys) before (nonempty_stripped lines).
Proof.
  unfold nonempty_stripped. revert before seen.
  induction lines as [| line lines IH]; intros before seen Hseen; simpl;
    [reflexivity |].
  destruct (String.eqb (PyStr.strip line) "") eqn:Hempty; simpl;
    [now apply IH |].
  rewrite (bool_decide_ext _ _
             (Hseen (PyStr.normcase sys (PyStr.strip line)))).
  case_bool_decide as Hin.
  - apply IH. intros x. rewrite map_app, elem_of_app, <- Hseen. simpl.
    rewrite list_elem_of_singleton. split; [tauto |].
    intros [Hx | ->]; [exact Hx | now apply Hseen].
  - specialize (IH (before ++ [PyStr.strip line])
                   ({[PyStr.normcase sys (PyStr.strip line)]} ∪ seen)).
    destruct (find_loop sys
                ({[PyStr.normcase sys (PyStr.strip line)]} ∪ seen) lines)
      as [ys seen'].
    simpl in *. f_equal. apply IH.
    intros x. rewrite map_app, elem_of_app, <- Hseen. simpl.
    rewrite list_elem_of_singleton. set_solver.
Qed.

(** X2. The scan keeps the first path of each identity and drops the
    later ones: what it yields is what it was given to consider, in the
    same order, less every path whose identity is that of a path considered
    before it.  So it yields no path it was not given, and every identity
    considered is yielded. *)
Theorem scan_drops_only_repeats (h : Host) (root : string) :
  find_pdf_files h root
  = first_of_each (PyStr.normcase (system h)) [] (candidates h root)
  /\ find_pdf_files h root `sublist_of` candidates h root
  /\ identities (system h) (find_pdf_files h root)
     = identities (system h) (candidates h root).
Proof.
  unfold find_pdf_files, candidates, identities.
  destruct (is_windows (system h)).
  - pose proof (rglob_loop_covers (system h) (rglob h (path_str h root)) ∅)
      as (Hsub & Hset).
    split; [| split; [exact Hsub | set_solver]].
    apply rglob_loop_firsts. intros x. simpl. set_solver.
  - pose proof (find_loop_covers (system h)
                  (fo_lines (find_cmd h (path_str h root))) ∅)
      as (Hsub & Hset).
    pose proof (find_loop_fresh (system h)
                  (fo_lines (find_cmd h (path_str h root))) ∅)
      as (_ & _ & Hseen).
    pose proof (find_loop_firsts (system h)
                  (fo_lines (find_cmd h (path_str h root))) [] ∅)
      as Hfirst.
    destruct (find_loop (system h) ∅
                (fo_lines (find_cmd h (path_str h root)))) as [ys seen].
    simpl in Hsub, Hset, Hseen, Hfirst.
    assert (Hys : ys = first_of_each (PyStr.normcase (system h)) []
                         (nonempty_stripped
                            (fo_lines (find_cmd h (path_str h root)))))
      by (apply Hfirst; intros x; set_solver).
    destruct (fo_raises _).
    + pose proof (rglob_loop_covers (system h) (rglob h (path_str h root))
                    seen) as (Hsub2 & Hset2).
      split; [| split; [now apply sublist_app |]].
      * rewrite first_of_each_app. f_equal; [exact Hys |].
        apply rglob_loop_firsts. intros x. cbn [app].
        rewrite Hseen, Hset, elem_of_union, elem_of_list_to_set.
        set_solver.
      * rewrite !map_app, !list_to_set_app_L. set_solver.
    + rewrite app_nil_r. split; [exact Hys |].
      split; [exact Hsub | set_solver].
Qed.

End ScanFacts.

(* ===================================================================== *)
(** ** Further properties: the inspector *)
(* ===================================================================== *)

Module InspectorMore.

Import Inspector Derived.
Import InspectorFacts.

(** X3. The calls [process_single_pdf] makes: one stat; an open only if
    the stat succeeded and reported at least 100 bytes; a close after every
    open that succeeded, whether the document then turns out encrypted,
    fails to give its page count, or is classified; nothing else. *)
Theorem inspector_calls (h : Host) (p : string) :
  let q := path_str h p in
  snd (run_single_pdf h p)
  = CStat q
      :: (if open_attempted h q
          then COpen q :: (if is_ok (fitz_open h q) then [CClose q] else [])
          else []).
Proof.
  intros q. subst q. rewrite run_single_pdf_cases.
  unfold inspect_cases, open_attempted.
  destruct (stat_size h (path_str h p)) as [sz | m]; [| reflexivity].
  rewrite (Z.leb_antisym sz 100).
  destruct (sz <? 100); simpl; [reflexivity |].
  destruct (fitz_open h (path_str h p)) as [doc | m]; [| reflexivity].
  destruct (doc_is_encrypted doc) as [[|] | m]; try reflexivity.
  destruct (doc_page_count doc) as [pc | m]; reflexivity.
Qed.

Lemma category_is_one_of_five (h : Host) (p : string) :
  exists info,
    process_single_pdf h p = Ok info /\ In (category info) categories.
Proof.
  rewrite process_single_pdf_cases. unfold inspect_cases, categories.
  destruct (stat_size h (path_str h p)) as [sz | m];
    [destruct (sz <? 100);
       [| destruct (fitz_open h (path_str h p)) as [doc | m];
          [destruct (doc_is_encrypted doc) as [[|] | m];
             [| destruct (doc_page_count doc) as [pc | m] |] |]] |];
    (eexists; split; [reflexivity |]); simpl; try tauto.
  destruct (pc >? PAGE_COUNT_THRESHOLD), (sz >? FILE_SIZE_THRESHOLD_BYTES);
    simpl; tauto.
Qed.

(** X4. The record returned: its path is the argument as [pathlib] prints
    it; its size is what stat reported, 0 if the stat failed; its category
    is one of the five; a record that is not openable has category N/A and
    page count 0; the processing time is always 0 in version 6. *)
Theorem inspector_record (h : Host) (p : string) :
  exists info,
    process_single_pdf h p = Ok info
    /\ file_path info = path_str h p
    /\ file_size_bytes info
       = match stat_size h (path_str h p) with Ok sz => sz | Err _ => 0 end
    /\ In (category info) categories
    /\ (can_open info = false ->
        category info = "N/A" /\ page_count info = 0)
    /\ processing_time info = 0.
Proof.
  rewrite process_single_pdf_cases. unfold inspect_cases, categories.
  destruct (stat_size h (path_str h p)) as [sz | m];
    [destruct (sz <? 100);
       [| destruct (fitz_open h (path_str h p)) as [doc | m];
          [destruct (doc_is_encrypted doc) as [[|] | m];
             [| destruct (doc_page_count doc) as [pc | m] |] |]] |];
    (eexists; split; [reflexivity |]); simpl;
    repeat split; try tauto; try discriminate.
  destruct (pc >? PAGE_COUNT_THRESHOLD), (sz >? FILE_SIZE_THRESHOLD_BYTES);
    simpl; tauto.
Qed.

End InspectorMore.

(* ===================================================================== *)
(** ** Further properties: the ledger and the writer *)
(* ===================================================================== *)

Module LedgerMore.

Import Inspector Discovery Csv Writer Pipeline Examples Derived.
Import LedgerFacts WriterFacts ResumeFacts.

Lemma row_get_no_column (k : string) (fieldnames row : list string) :
  ~ In k fieldnames -> row_get (row_dict fieldnames row) k = None.
Proof.
  intros Hk. unfold row_get, row_dict.
  rewrite fold_none_lookup by (apply skipn_notin, Hk).
  rewrite fold_some_lookup by (apply zip_keys_notin, Hk).
  now rewrite lookup_empty.
Qed.

Lemma load_loop_no_column (sys : System) (fieldnames : list string)
  (rows : list (list string)) (processed : gset string) :
  ~ In "file_path" fieldnames ->
  load_loop sys fieldnames processed rows = processed.
Proof.
  intros Hk. revert processed.
  induction rows as [| row rows IH]; intros processed; [reflexivity |].
  destruct row as [| p fs]; cbn [load_loop]; [apply IH |].
  rewrite row_get_no_column by exact Hk. cbn [truthy]. apply IH.
Qed.

(** A column that is not named [file_path] in the file is not read as one
    that is. *)
Lemma read_fields_no_column (fieldnames : list string) :
  ~ In "file_path" fieldnames -> ~ In "file_path" (read_fields fieldnames).
Proof.
  intros Hk Hin. apply in_map_iff in Hin as (f & Hf & Hin).
  apply universal_newlines_plain in Hf; [now subst f |].
  cbn. intros H. repeat destruct H as [H | H]; discriminate || exact H.
Qed.

(** The first row delivered, if one is, is the first record of the file. *)
Lemma reader_rows_first (fields : list string) (lines : list Line) :
  fst (reader_rows (Rec fields :: lines)) = []
  \/ exists rest,
       fst (reader_rows (Rec fields :: lines)) = read_fields fields :: rest.
Proof.
  unfold reader_rows. cbn [parse].
  destruct (too_long (read_fields fields)); [now left |].
  destruct (parse lines) as [rows [[msg lost] |]]; cbn [fst List.length].
  - destruct (S (List.length rows) - lost)%nat as [| k];
      [now left | right; now eexists].
  - right. now eexists.
Qed.

(** X5. An artifact whose first record has no [file_path] column gives an
    empty ledger, whatever its rows: with such an artifact (one that starts
    with a data row, for instance) a resumed run submits every discovered
    file again. *)
Theorem ledger_empty_without_column (h : Host) (root : string)
  (fieldnames : list string) (lines : list Line) :
  ~ In "file_path" fieldnames ->
  fst (load_processed_csv (system h) (Some (Rec fieldnames :: lines))) = ∅
  /\ pdf_gen h root
       (fst (load_processed_csv (system h) (Some (Rec fieldnames :: lines))))
     = find_pdf_files h root.
Proof.
  intros Hk.
  assert (Hempty : fst (load_processed_csv (system h)
                          (Some (Rec fieldnames :: lines))) = ∅).
  { unfold load_processed_csv.
    pose proof (reader_rows_first fieldnames lines) as Hfirst.
    destruct (reader_rows (Rec fieldnames :: lines)) as [rows raised].
    cbn [fst] in Hfirst.
    assert (Hp : match rows with
                 | [] => ∅
                 | names :: rest => load_loop (system h) names ∅ rest
                 end = (∅ : gset string)).
    { destruct Hfirst as [-> | (rest & ->)]; [reflexivity |].
      apply load_loop_no_column, read_fields_no_column, Hk. }
    rewrite Hp. now destruct raised. }
  split; [exact Hempty |]. rewrite Hempty. apply pdf_gen_no_ledger.
Qed.

(** An artifact made of the two example rows, without header: the row of
    [a.pdf] is taken for the header and nothing is loaded. *)
Lemma ledger_empty_without_column_witness :
  fst (load_processed_csv Linux
         (Some [Rec (row_fields row_a); Rec (row_fields row_b)])) = ∅
  /\ pdf_gen data_host "/data"
       (fst (load_processed_csv Linux
               (Some [Rec (row_fields row_a); Rec (row_fields row_b)])))
     = find_pdf_files data_host "/data".
Proof.
  apply (ledger_empty_without_column data_host "/data"
           (row_fields row_a) [Rec (row_fields row_b)]).
  simpl. intros H. repeat destruct H as [H | H]; discriminate || exact H.
Defined.

Lemma identities_rendered (sys : System) (rows : list Info) :
  list_to_set (omap (loaded_identity sys) (rendered rows))
  = ledger_of_rows sys rows.
Proof.
  unfold ledger_of_rows.
  induction rows as [| r rows IH]; [reflexivity |].
  change (omap (loaded_identity sys) (rendered (r :: rows)))
    with (match loaded_identity sys (Rec (row_fields r)) with
          | Some y => y :: omap (loaded_identity sys) (rendered rows)
          | None => omap (loaded_identity sys) (rendered rows)
          end).
  cbn [loaded_identity row_fields map List.filter].
  destruct (String.eqb (PyStr.universal_newlines (file_path r)) "");
    cbn [negb]; [exact IH |].
  cbn [map list_to_set foldr]. now rewrite <- IH.
Qed.

(** X6. Writing and loading round trip.  The writer is sent batches and
    the sentinel, into no file or into a file of rows the reader parses
    under the header, and no field it writes is over the reader's limit.
    Loading the artifact then gives the ledger of the file as it was
    together with the identities of the paths of the rows written, each as
    it is read back (the file is written with [newline=''] and read
    without, so a carriage return in a path has become a line feed), the
    empty ones left out. *)
Theorem ledger_gains_what_was_written (sys : System) (csv_file : Artifact)
  (batches : list (list Info)) (rest : list (option (list Info))) :
  (csv_file = None
   \/ exists good,
        csv_file = Some (Rec header :: good) /\ Forall readable good) ->
  Forall readable (rendered (concat batches)) ->
  fst (load_processed_csv sys
         (artifact_after csv_file
            (fst (csv_writer_thread csv_file
                    (map Some batches ++ None :: rest)))))
  = fst (load_processed_csv sys csv_file)
    ∪ ledger_of_rows sys (concat batches).
Proof.
  intros Hfile Hrows. rewrite writer_artifact.
  destruct Hfile as [-> | (good & -> & Hgood)].
  - replace (existing None ++ map Rec (header_if_new None)
             ++ rendered (concat batches))
      with (Rec header :: rendered (concat batches)) by reflexivity.
    rewrite (load_good_rows sys (rendered (concat batches))) by exact Hrows.
    cbn [fst load_processed_csv]. rewrite identities_rendered. set_solver.
  - replace (existing (Some (Rec header :: good))
             ++ map Rec (header_if_new (Some (Rec header :: good)))
             ++ rendered (concat batches))
      with (Rec header :: (good ++ rendered (concat batches)))
      by reflexivity.
    rewrite (load_good_rows sys (good ++ rendered (concat batches)))
      by (apply Forall_app; split; [exact Hgood | exact Hrows]).
    rewrite (load_good_rows sys good) by exact Hgood.
    cbn [fst]. rewrite omap_app, list_to_set_app_L, identities_rendered.
    reflexivity.
Qed.

(** Two one-row batches into a new file: both paths are in the ledger the
    next run loads. *)
Lemma ledger_gains_what_was_written_witness :
  fst (load_processed_csv Linux
         (artifact_after None
            (fst (csv_writer_thread None
                    (map Some [[row_a]; [row_b]] ++ [None])))))
  = fst (load_processed_csv Linux None)
    ∪ ledger_of_rows Linux (concat [[row_a]; [row_b]]).
Proof.
  apply (ledger_gains_what_was_written Linux None [[row_a]; [row_b]] []).
  - now left.
  - repeat constructor.
Defined.

(** X7. The sentinel: a writer that is sent batches and no [None] never
    returns and never closes the file; a writer that is sent a [None] stops
    there, and what is queued behind the first [None] is never taken. *)
Theorem writer_and_sentinel (csv_file : Artifact)
  (batches : list (list Info)) (rest : list (option (list Info))) :
  snd (csv_writer_thread csv_file (map Some batches)) = false
  /\ ~ In EClose (fst (csv_writer_thread csv_file (map Some batches)))
  /\ csv_writer_thread csv_file (map Some batches ++ None :: rest)
     = csv_writer_thread csv_file (map Some batches ++ [None]).
Proof.
  assert (Hloop : writer_loop (map Some batches)
                  = (flat_map batch_events batches, false)).
  { induction batches as [| rows batches IH]; simpl; [reflexivity |].
    rewrite IH. unfold batch_events. simpl.
    rewrite <- !app_assoc. reflexivity. }
  split; [| split].
  - unfold csv_writer_thread. now rewrite Hloop.
  - unfold csv_writer_thread. rewrite Hloop. simpl. rewrite app_nil_r.
    intros [H | [H | H]]; try discriminate.
    apply in_app_or in H as [H | H].
    + destruct (bool_decide (is_Some csv_file)); simpl in H;
        [exact H | destruct H as [H | H]; [discriminate | exact H]].
    + pose proof (quiet_batches batches) as Hq.
      rewrite forallb_forall in Hq. specialize (Hq _ H). discriminate.
  - now rewrite !csv_writer_thread_events.
Qed.

End LedgerMore.

(* ===================================================================== *)
(** ** Further properties: the aggregator and the run *)
(* ===================================================================== *)

Module RunMore.

Import Inspector Discovery Csv Writer Pipeline Examples Derived.
Import InspectorFacts PipelineFacts ResumeFacts.

Lemma aggregate_keeps_batches_full (r : Info) (a : Aggregator)
  (bs : list (list Info)) :
  queue a = map Some bs -> Forall full bs ->
  (List.length (batch_rows a) < BATCH_WRITE_SIZE)%nat ->
  exists bs',
    queue (aggregate a r) = map Some bs'
    /\ Forall full bs'
    /\ (List.length (batch_rows (aggregate a r)) < BATCH_WRITE_SIZE)%nat
    /\ concat bs' ++ batch_rows (aggregate a r)
       = concat bs ++ batch_rows a ++ [r].
Proof.
  intros Hq Hfull Hlen. unfold aggregate.
  destruct (BATCH_WRITE_SIZE <=? List.length (batch_rows a ++ [r]))%nat
    eqn:Hcmp; simpl.
  - apply Nat.leb_le in Hcmp. rewrite length_app in Hcmp. simpl in Hcmp.
    exists (bs ++ [batch_rows a ++ [r]]). split; [| split; [| split]].
    + now rewrite Hq, map_app.
    + apply Forall_app. split; [exact Hfull |].
      constructor; [| constructor]. unfold full. rewrite length_app. simpl.
      lia.
    + unfold BATCH_WRITE_SIZE. lia.
    + rewrite concat_app. simpl. now rewrite !app_nil_r.
  - apply Nat.leb_gt in Hcmp.
    exists bs. repeat split; assumption.
Qed.

Lemma aggregate_fold_full (rs : list Info) (a : Aggregator)
  (bs : list (list Info)) :
  queue a = map Some bs -> Forall full bs ->
  (List.length (batch_rows a) < BATCH_WRITE_SIZE)%nat ->
  exists bs',
    queue (fold_left aggregate rs a) = map Some bs'
    /\ Forall full bs'
    /\ (List.length (batch_rows (fold_left aggregate rs a))
        < BATCH_WRITE_SIZE)%nat
    /\ concat bs' ++ batch_rows (fold_left aggregate rs a)
       = concat bs ++ batch_rows a ++ rs.
Proof.
  revert a bs. induction rs as [| r rs IH]; intros a bs Hq Hfull Hlen; simpl.
  - exists bs. rewrite app_nil_r. repeat split; assumption.
  - destruct (aggregate_keeps_batches_full r a bs Hq Hfull Hlen)
      as (bs1 & Hq1 & Hfull1 & Hlen1 & Hc1).
    destruct (IH (aggregate a r) bs1 Hq1 Hfull1 Hlen1)
      as (bs' & Hq' & Hfull' & Hlen' & Hc).
    exists bs'. repeat split; try assumption.
    rewrite Hc, app_assoc, Hc1. now rewrite <- !app_assoc.
Qed.

(** X8. What the aggregator puts on the queue for the results [rs]: the
    results in arrival order, cut into batches of exactly
    [BATCH_WRITE_SIZE] rows, a last batch that may be shorter but is never
    empty, then one sentinel at the very end. *)
Theorem queue_is_results_in_full_batches (rs : list Info) :
  exists bs,
    final_queue (fold_left aggregate rs
                   {| batch_rows := []; queue := []; stats := initial_stats |})
    = map Some bs ++ [None]
    /\ concat bs = rs
    /\ Forall (fun b => List.length b = BATCH_WRITE_SIZE) (removelast bs)
    /\ Forall (fun b => (0 < List.length b <= BATCH_WRITE_SIZE)%nat) bs.
Proof.
  destruct (aggregate_fold_full rs
              {| batch_rows := []; queue := []; stats := initial_stats |} [])
    as (bs & Hq & Hfull & Hlen & Hc);
    [reflexivity | constructor | unfold BATCH_WRITE_SIZE; simpl; lia |].
  simpl in Hc. unfold final_queue. rewrite Hq.
  assert (Hpos : Forall (fun b => (0 < List.length b <= BATCH_WRITE_SIZE)%nat)
                        bs).
  { eapply Forall_impl; [exact Hfull |]. unfold full, BATCH_WRITE_SIZE.
    intros b Hb. lia. }
  destruct (batch_rows (fold_left aggregate rs _)) as [| r rows] eqn:Hb.
  - exists bs. rewrite app_nil_r in Hc. split; [reflexivity |].
    split; [exact Hc |]. split; [| exact Hpos].
    clear -Hfull. induction Hfull as [| b bs Hb Hbs IH]; [constructor |].
    destruct bs as [| b' bs]; [constructor |].
    change (removelast (b :: b' :: bs)) with (b :: removelast (b' :: bs)).
    constructor; assumption.
  - exists (bs ++ [r :: rows]). split; [| split; [| split]].
    + now rewrite map_app, <- app_assoc.
    + rewrite concat_app. simpl. now rewrite app_nil_r.
    + rewrite removelast_last. exact Hfull.
    + apply Forall_app. split; [exact Hpos |].
      constructor; [| constructor]. simpl in *. lia.
Qed.

(** *** Statistics *)

Lemma stats_fold (rs : list Info) (a : Aggregator) :
  stats (fold_left aggregate rs a) = fold_left update_stats rs (stats a).
Proof.
  revert a. induction rs as [| r rs IH]; intros a; simpl; [reflexivity |].
  rewrite IH. f_equal. unfold aggregate.
  now destruct (BATCH_WRITE_SIZE <=? _)%nat.
Qed.

Lemma count_of_update (st : Stats) (r : Info) (c : string) :
  count_of (update_stats st r) c
  = count_of st c + (if String.eqb (category r) c then 1 else 0).
Proof.
  unfold count_of, update_stats. simpl.
  destruct (String.eqb (category r) c) eqn:Hc.
  - apply String.eqb_eq in Hc. subst c. rewrite lookup_insert_eq. simpl.
    destruct (category_counts st !! category r) as [v |] eqn:Hv; simpl.
    + now rewrite Hv.
    + now rewrite lookup_insert_eq.
  - apply String.eqb_neq in Hc. rewrite lookup_insert_ne by exact Hc.
    destruct (category_counts st !! category r);
      [| rewrite lookup_insert_ne by exact Hc]; lia.
Qed.

Lemma count_of_fold (rs : list Info) (st : Stats) (c : string) :
  count_of (fold_left update_stats rs st) c
  = count_of st c + Z.of_nat (with_category c rs)
  /\ processed (fold_left update_stats rs st)
     = processed st + Z.of_nat (List.length rs).
Proof.
  revert st. induction rs as [| r rs IH]; intros st.
  - unfold with_category. simpl. split; lia.
  - destruct (IH (update_stats st r)) as (Hc & Hp).
    cbn [fold_left]. rewrite Hc, Hp, count_of_update.
    unfold with_category, update_stats. cbn [List.filter processed].
    destruct (String.eqb (category r) c); cbn [List.length]; split; lia.
Qed.

Lemma count_of_initial (c : string) : count_of initial_stats c = 0.
Proof.
  unfold count_of, initial_stats. simpl.
  repeat (rewrite lookup_insert; case_decide; [reflexivity |]).
  now rewrite lookup_empty.
Qed.

Lemma stats_count_results_aux (rs : list Info) (c : string) :
  processed (stats_after rs) = Z.of_nat (List.length rs)
  /\ count_of (stats_after rs) c = Z.of_nat (with_category c rs).
Proof.
  unfold stats_after. rewrite stats_fold. simpl.
  destruct (count_of_fold rs initial_stats c) as (Hc & Hp).
  rewrite Hc, Hp, count_of_initial. simpl. split; lia.
Qed.

(** X9. The statistics after any results: [processed] is the number of
    results, and the count kept for a category, the five initial ones or
    one met on the way, is the number of results of that category. *)
Theorem stats_count_results (rs : list Info) (c : string) :
  processed (stats_after rs) = Z.of_nat (List.length rs)
  /\ count_of (stats_after rs) c = Z.of_nat (with_category c rs).
Proof. apply stats_count_results_aux. Qed.

Lemma results_categories (h : Host) (order : list string) (rs : list Info) :
  results h order = Ok rs ->
  Forall (fun r => In (category r) categories) rs.
Proof.
  revert rs. induction order as [| p order IH]; intros rs; simpl.
  - intros [= <-]. constructor.
  - destruct (worker_dies h p); [discriminate |].
    destruct (InspectorMore.category_is_one_of_five h p)
      as (info & Hinfo & Hcat).
    rewrite Hinfo.
    destruct (results h order) as [more | m]; [| discriminate].
    intros [= <-]. constructor; [exact Hcat | now apply IH].
Qed.

Lemma process_pdfs_stats (h : Host)
  (completion : list string -> list string) (root : string)
  (csv_file : Artifact) (workers : option Z) (resume : bool) (run : Run) :
  process_pdfs h completion root csv_file workers resume = Ok run ->
  exists rs,
    results h (completion (pdf_gen h root (run_ledger run))) = Ok rs
    /\ run_stats run = stats_after rs.
Proof.
  unfold process_pdfs.
  destruct (if resume then load_processed_csv (system h) csv_file
            else (∅, [])) as [ledger log].
  destruct (pool_error (system h) (effective_workers h workers));
    [discriminate |].
  destruct (results h (completion (pdf_gen h root ledger))) as [rs | m] eqn:Hrs;
    [| discriminate].
  destruct (csv_writer_thread csv_file _) as [evs fin].
  intros [= <-]. simpl. exists rs. now split.
Qed.

Lemma with_category_sum (rs : list Info) :
  Forall (fun r => In (category r) categories) rs ->
  fold_right Z.add 0
    (map (fun c => Z.of_nat (with_category c rs)) categories)
  = Z.of_nat (List.length rs).
Proof.
  unfold categories, with_category.
  induction 1 as [| r rs Hr _ IH]; [reflexivity |].
  cbn [map fold_right] in *. cbn [List.filter List.length].
  simpl in Hr.
  destruct Hr as [Hr | [Hr | [Hr | [Hr | [Hr | []]]]]]; rewrite <- Hr;
    simpl; lia.
Qed.

Lemma with_category_other (rs : list Info) (c : string) :
  Forall (fun r => In (category r) categories) rs ->
  ~ In c categories -> with_category c rs = 0%nat.
Proof.
  intros Hrs Hc. unfold with_category.
  induction Hrs as [| r rs Hr _ IH]; [reflexivity |]. simpl.
  destruct (String.eqb (category r) c) eqn:Heq; [| exact IH].
  apply String.eqb_eq in Heq. subst c. contradiction.
Qed.

(** X10. The summary of a run that ends: the processed count is the number
    of files submitted, the five per-category counts add up to it, and no
    other category is ever counted. *)
Theorem summary_adds_up (h : Host) (completion : list string -> list string)
  (root : string) (csv_file : Artifact) (workers : option Z) (resume : bool)
  (run : Run) :
  process_pdfs h completion root csv_file workers resume = Ok run ->
  fair completion ->
  processed (run_stats run)
  = Z.of_nat (List.length (pdf_gen h root (run_ledger run)))
  /\ sum_counts (run_stats run) = processed (run_stats run)
  /\ (forall c, ~ In c categories -> count_of (run_stats run) c = 0).
Proof.
  intros Hrun Hfair.
  destruct (process_pdfs_stats _ _ _ _ _ _ _ Hrun) as (rs & Hrs & ->).
  pose proof (results_categories _ _ _ Hrs) as Hcats.
  pose proof (results_inv _ _ _ Hrs) as Hpaths.
  assert (Hlen : List.length rs
                 = List.length (pdf_gen h root (run_ledger run))).
  { rewrite <- (length_map file_path rs), Hpaths, length_map.
    apply Permutation_length, Hfair. }
  split; [| split].
  - rewrite (proj1 (stats_count_results_aux rs "")). now rewrite Hlen.
  - unfold sum_counts.
    rewrite (map_ext (count_of (stats_after rs))
                     (fun c => Z.of_nat (with_category c rs)))
      by (intros c; apply stats_count_results_aux).
    rewrite with_category_sum by exact Hcats.
    now rewrite (proj1 (stats_count_results_aux rs "")).
  - intros c Hc. rewrite (proj2 (stats_count_results_aux rs c)).
    now rewrite with_category_other.
Qed.

(** The example corpus: five files, one of them in each of three
    categories and two that could not be opened. *)
Lemma summary_adds_up_witness :
  exists run,
    process_pdfs corpus_host (fun l => l) "/data" None None true = Ok run
    /\ processed (run_stats run) = 5
    /\ sum_counts (run_stats run) = 5.
Proof.
  destruct (process_pdfs corpus_host (fun l => l) "/data" None None true)
    as [run | m] eqn:Hrun; [| vm_compute in Hrun; discriminate].
  exists run. split; [reflexivity |].
  destruct (summary_adds_up _ _ _ _ _ _ _ Hrun
              (fun l => Permutation_refl l)) as (Hp & Hs & _).
  assert (H5 : List.length (pdf_gen corpus_host "/data" (run_ledger run))
               = 5%nat).
  { replace (run_ledger run)
      with (match process_pdfs corpus_host (fun l => l) "/data" None None
                    true
            with Ok r => run_ledger r | Err _ => ∅ end)
      by (now rewrite Hrun).
    vm_compute. reflexivity. }
  rewrite H5 in Hp. split; [exact Hp | now rewrite Hs, Hp].
Defined.

(** X11. With resume off the ledger is empty and the artifact is not
    started over: a run that ends appends one row for every discovered
    file after what the file held, whether or not the file is recorded
    there already. *)
Theorem no_resume_appends_again (h : Host)
  (completion : list string -> list string) (root : string)
  (csv_file : Artifact) (workers : option Z) (run : Run) :
  process_pdfs h completion root csv_file workers false = Ok run ->
  fair completion ->
  run_ledger run = ∅
  /\ exists rs,
       run_artifact run
       = Some (existing csv_file ++ map Rec (header_if_new csv_file)
                 ++ rendered rs)
       /\ Permutation (map file_path rs)
                      (map (path_str h) (find_pdf_files h root)).
Proof.
  intros Hrun Hfair.
  apply process_pdfs_inv in Hrun
    as (_ & Hledger & _ & rs & _ & Hpaths & _ & Hart).
  split; [exact Hledger |].
  exists rs. split; [exact Hart |].
  rewrite Hpaths, Hledger, pdf_gen_no_ledger.
  apply Permutation_map, Hfair.
Qed.

(** The file under [/data], already recorded, scanned with resume off: it
    is recorded a second time. *)
Lemma no_resume_appends_again_witness :
  exists run,
    process_pdfs data_host (fun l => l) "/data"
                 (Some [Rec header; Rec (row_fields row_a)]) None false
    = Ok run
    /\ run_artifact run
       = Some [Rec header; Rec (row_fields row_a); Rec (row_fields row_a)].
Proof.
  destruct (process_pdfs data_host (fun l => l) "/data"
              (Some [Rec header; Rec (row_fields row_a)]) None false)
    as [run | m] eqn:Hrun; [| vm_compute in Hrun; discriminate].
  exists run. split; [reflexivity |].
  destruct (no_resume_appends_again _ _ _ _ _ _ Hrun
              (fun l => Permutation_refl l)) as (_ & rs & Hart & _).
  rewrite Hart.
  replace (run_artifact run)
    with (match process_pdfs data_host (fun l => l) "/data"
                  (Some [Rec header; Rec (row_fields row_a)]) None false
          with Ok r => run_artifact r | Err _ => None end) in Hart
    by (now rewrite Hrun).
  rewrite <- Hart. vm_compute. reflexivity.
Defined.

(** X12. Version 2 (and version 3, which has the same loop) keeps the
    pool fed in batches: with a positive worker count at most ten times as
    many tasks are in flight at any time, however many files there are. *)
Theorem v2_keeps_in_flight_bounded
  (completion : list string -> list string) (workers : Z)
  (gen : list string) :
  fair completion -> 0 < workers ->
  (peak_in_flight 0
     (v2_pool_events completion (v2_batch_size workers) [] gen)
   <= 10 * Z.to_nat workers)%nat.
Proof. apply v2_in_flight_bounded_workers. Qed.

(** Twenty-five paths and one worker: never more than ten in flight. *)
Lemma v2_keeps_in_flight_bounded_witness :
  (peak_in_flight 0
     (v2_pool_events (fun l => l) (v2_batch_size 1) []
        (map (fun n => pretty n) (seq 0 25)))
   <= 10 * Z.to_nat 1)%nat.
Proof.
  apply (v2_keeps_in_flight_bounded (fun l => l) 1).
  - intros l. apply Permutation_refl.
  - lia.
Defined.

End RunMore.

(* ===================================================================== *)
(** ** Further properties: version 2 *)
(* ===================================================================== *)

Module V2Facts.

Import Inspector Discovery Csv Writer Pipeline Examples Derived.
Import InspectorFacts WriterFacts PipelineFacts.

Lemma append_then_close (csv_file : Artifact) (found : bool)
  (body : list Event) :
  forallb quiet body = true ->
  artifact_after csv_file (EExists found :: EOpenAppend :: body ++ [EClose])
  = Some (existing csv_file ++ rows_written body).
Proof.
  intros Hq. unfold artifact_after, run_events.
  cbn [fold_left file_step disk buffer].
  rewrite fold_left_app, (quiet_steps body) by exact Hq.
  reflexivity.
Qed.

Lemma quiet_rows (float_repr : Z -> string) (rows : list Info) :
  forallb quiet
    (map (fun row => EWriteRow (V2.row_fields float_repr row)) rows) = true.
Proof. induction rows; simpl; auto. Qed.

Lemma rows_written_rows (float_repr : Z -> string) (rows : list Info) :
  rows_written
    (map (fun row => EWriteRow (V2.row_fields float_repr row)) rows)
  = map (fun row => Rec (V2.row_fields float_repr row)) rows.
Proof. induction rows; simpl; congruence. Qed.

(** What a call of [write_csv_batch] leaves on disk. *)
Lemma write_csv_batch_written (float_repr : Z -> string)
  (csv_file : Artifact) (rows : list Info) :
  V2.write_csv_batch float_repr csv_file rows
  = V2.written float_repr csv_file rows.
Proof.
  unfold V2.write_csv_batch, V2.write_csv_batch_events, V2.written.
  destruct rows as [| r rows]; [reflexivity |].
  replace (if bool_decide (is_Some csv_file) then []
           else [EWriteRow header])
    with (map EWriteRow (header_if_new csv_file))
    by (unfold header_if_new; now destruct (bool_decide _)).
  rewrite app_assoc, append_then_close
    by (now rewrite forallb_app, quiet_header, quiet_rows).
  now rewrite rows_written_app, rows_written_header, rows_written_rows.
Qed.

Lemma written_app (float_repr : Z -> string) (csv_file : Artifact)
  (rows1 rows2 : list Info) :
  V2.written float_repr (V2.written float_repr csv_file rows1) rows2
  = V2.written float_repr csv_file (rows1 ++ rows2).
Proof.
  destruct rows1 as [| r1 rows1]; [reflexivity |].
  destruct rows2 as [| r2 rows2]; [now rewrite app_nil_r |].
  unfold V2.written, header_if_new. simpl.
  rewrite !map_app. simpl. now rewrite <- !app_assoc.
Qed.

(** X13. [write_csv_batch] of version 2: an empty batch touches nothing,
    not even to create the file; and writing one batch after another
    leaves the file that writing them as one batch leaves, so how the rows
    are cut into batches does not show in the artifact. *)
Theorem write_csv_batch_composes (float_repr : Z -> string)
  (csv_file : Artifact) (rows1 rows2 : list Info) :
  V2.write_csv_batch float_repr csv_file [] = csv_file
  /\ V2.write_csv_batch_events float_repr csv_file [] = []
  /\ V2.write_csv_batch float_repr
       (V2.write_csv_batch float_repr csv_file rows1) rows2
     = V2.write_csv_batch float_repr csv_file (rows1 ++ rows2).
Proof.
  split; [reflexivity |]. split; [reflexivity |].
  rewrite !write_csv_batch_written. apply written_app.
Qed.

Lemma v2_rows_plain (float_repr : Z -> string) (rows : list Info) :
  Forall plain (map (fun row => Rec (V2.row_fields float_repr row)) rows).
Proof.
  induction rows as [| r rows IH]; constructor; [| exact IH].
  unfold plain, is_header. apply bool_decide_eq_false_2.
  unfold V2.row_fields, header. intros [= _ _ Hbool].
  destruct (can_open r); discriminate.
Qed.

Lemma fold_write_csv_batch (float_repr : Z -> string)
  (batches : list (list Info)) (csv_file : Artifact) :
  fold_left (V2.write_csv_batch float_repr) batches csv_file
  = V2.written float_repr csv_file (concat batches).
Proof.
  revert csv_file. induction batches as [| b batches IH]; intros csv_file;
    simpl; [reflexivity |].
  now rewrite IH, write_csv_batch_written, written_app.
Qed.

(** X14. Version 2 keeps the header once: starting from no file, after
    any sequence of [write_csv_batch] calls the file is still absent if no
    row was ever passed, and otherwise holds exactly one header row, on
    top, followed by all the rows in the order they were passed. *)
Theorem write_csv_batch_header_once (float_repr : Z -> string)
  (batches : list (list Info)) :
  let final := fold_left (V2.write_csv_batch float_repr) batches None in
  (concat batches = [] -> final = None)
  /\ (concat batches <> [] ->
      header_once final
      /\ final
         = Some (Rec header
                   :: map (fun row => Rec (V2.row_fields float_repr row))
                          (concat batches))).
Proof.
  intros final. subst final. rewrite fold_write_csv_batch.
  split.
  - intros ->. reflexivity.
  - intros Hne. destruct (concat batches) as [| r rows] eqn:Hc;
      [contradiction |].
    split; [| reflexivity].
    eexists. split; [reflexivity |].
    apply header_count_plain, (v2_rows_plain float_repr (r :: rows)).
Qed.

(** An empty batch, then the two example rows in two calls. *)
Lemma write_csv_batch_header_once_witness :
  header_once
    (fold_left (V2.write_csv_batch pretty) [[]; [row_a]; [row_b]] None).
Proof.
  apply (write_csv_batch_header_once pretty [[]; [row_a]; [row_b]]).
  discriminate.
Defined.

Lemma v2_run_single_pdf_cases (h : Host) (elapsed : Z) (p : string) :
  V2.run_single_pdf h elapsed p
  = (match fst (Inspector.run_single_pdf h p) with
     | Ok info => Ok (V2.with_time elapsed info)
     | Err msg => Err msg
     end,
     snd (Inspector.run_single_pdf h p)).
Proof.
  rewrite run_single_pdf_cases.
  unfold V2.run_single_pdf, inspect_cases, try_except, V2.try_body.
  unfold bind, lift, log, ret, raise, set_file_size_bytes, modify. simpl.
  destruct (stat_size h (path_str h p)) as [sz | m]; simpl; [| reflexivity].
  destruct (sz <? 100) eqn:Hsmall; simpl; [reflexivity |].
  unfold with_open, bind, lift, log, ret, raise. simpl.
  destruct (fitz_open h (path_str h p)) as [doc | m]; simpl; [| reflexivity].
  destruct (doc_is_encrypted doc) as [[|] | m]; simpl; try reflexivity.
  destruct (doc_page_count doc) as [pc | m]; simpl; reflexivity.
Qed.

(** X15. The inspector of version 2 is the one of version 6 with the
    clock: on every host and path it makes the same calls and returns the
    same record, except that [processing_time] holds the elapsed time on
    every way out, the early returns included. *)
Theorem v2_inspector_is_v6_timed (h : Host) (elapsed : Z) (p : string) :
  V2.run_single_pdf h elapsed p
  = (match fst (Inspector.run_single_pdf h p) with
     | Ok info => Ok (V2.with_time elapsed info)
     | Err msg => Err msg
     end,
     snd (Inspector.run_single_pdf h p)).
Proof. apply v2_run_single_pdf_cases. Qed.

(** *** The run of version 2 *)

Lemma v2_process_single_pdf_total (h : Host) (elapsed : Z) (p : string) :
  exists info, V2.process_single_pdf h elapsed p = Ok info.
Proof.
  unfold V2.process_single_pdf. rewrite v2_run_single_pdf_cases. simpl.
  destruct (process_single_pdf_path h p) as (res & Hres & _).
  unfold Inspector.process_single_pdf in Hres. rewrite Hres.
  eexists; reflexivity.
Qed.

Lemma v2_results_total (h : Host) (clock : string -> Z)
  (order : list string) :
  (forall p, In p order -> worker_dies h p = false) ->
  exists rs, V2.results h clock order = Ok rs
             /\ List.length rs = List.length order.
Proof.
  induction order as [| p order IH]; intros Hlive; simpl.
  - now exists [].
  - rewrite (Hlive p) by now left.
    destruct IH as (rs & Hrs & Hlen); [intros q Hq; apply Hlive; now right |].
    destruct (v2_process_single_pdf_total h (clock p) p) as (info & ->).
    rewrite Hrs. exists (info :: rs). simpl. now rewrite Hlen.
Qed.

Lemma v2_results_app (h : Host) (clock : string -> Z)
  (order1 order2 : list string) (rs1 rs2 : list Info) :
  V2.results h clock order1 = Ok rs1 ->
  V2.results h clock order2 = Ok rs2 ->
  V2.results h clock (order1 ++ order2) = Ok (rs1 ++ rs2).
Proof.
  revert rs1. induction order1 as [| p order1 IH]; intros rs1; simpl.
  - now intros [= <-].
  - destruct (worker_dies h p); [discriminate |].
    destruct (V2.process_single_pdf h (clock p) p) as [res | m];
      [| discriminate].
    destruct (V2.results h clock order1) as [more | m]; [| discriminate].
    intros [= <-] H2. now rewrite (IH more eq_refl H2).
Qed.

Lemma take_result_pending (float_repr : Z -> string) (st : V2.Loop)
  (res : Info) :
  V2.pending float_repr (V2.take_result float_repr st res)
  = V2.written float_repr (V2.pending float_repr st) [res]
  /\ V2.loop_stats (V2.take_result float_repr st res)
     = update_stats (V2.loop_stats st) res.
Proof.
  unfold V2.pending, V2.take_result.
  destruct (V2.BATCH_WRITE_SIZE <=? _)%nat;
    cbn [V2.loop_file V2.loop_rows V2.loop_stats]; split;
    try reflexivity.
  - rewrite write_csv_batch_written.
    rewrite (written_app float_repr _ (V2.loop_rows st) [res]).
    reflexivity.
  - now rewrite written_app.
Qed.

Lemma drain_pending (h : Host) (clock : string -> Z)
  (float_repr : Z -> string) (order : list string) (st st' : V2.Loop) :
  V2.drain h clock float_repr st order = Ok st' ->
  exists rs,
    V2.results h clock order = Ok rs
    /\ V2.pending float_repr st' = V2.written float_repr (V2.pending float_repr st) rs
    /\ V2.loop_stats st' = fold_left update_stats rs (V2.loop_stats st).
Proof.
  revert st. induction order as [| p order IH]; intros st; simpl.
  - intros [= <-]. exists []. repeat split; reflexivity.
  - destruct (worker_dies h p); [discriminate |].
    destruct (V2.process_single_pdf h (clock p) p) as [res | m];
      [| discriminate].
    intros Hd. destruct (IH _ Hd) as (rs & -> & Hp & Hs).
    destruct (take_result_pending float_repr st res) as (Hp1 & Hs1).
    exists (res :: rs). split; [reflexivity |]. split.
    + rewrite Hp, Hp1, written_app. reflexivity.
    + rewrite Hs, Hs1. reflexivity.
Qed.

Lemma submit_loop_pending (h : Host) (clock : string -> Z)
  (float_repr : Z -> string) (completion : list string -> list string)
  (batch_size : nat) (gen pdf_batch : list string) (st st' : V2.Loop) :
  V2.submit_loop h clock float_repr completion batch_size st pdf_batch gen
  = Ok st' ->
  exists rs,
    V2.results h clock (V2.arrival completion batch_size pdf_batch gen)
    = Ok rs
    /\ V2.pending float_repr st' = V2.written float_repr (V2.pending float_repr st) rs
    /\ V2.loop_stats st' = fold_left update_stats rs (V2.loop_stats st).
Proof.
  revert pdf_batch st. induction gen as [| pdf gen IH];
    intros pdf_batch st; simpl.
  - apply drain_pending.
  - destruct (batch_size <=? List.length (pdf_batch ++ [pdf]))%nat.
    + destruct (V2.drain h clock float_repr st
                  (completion (pdf_batch ++ [pdf]))) as [st1 | m] eqn:Hd;
        [| discriminate].
      intros Hl.
      destruct (drain_pending _ _ _ _ _ _ Hd) as (rs1 & Hr1 & Hp1 & Hs1).
      destruct (IH _ _ Hl) as (rs2 & Hr2 & Hp2 & Hs2).
      exists (rs1 ++ rs2). split; [| split].
      * now apply v2_results_app.
      * now rewrite Hp2, Hp1, written_app.
      * now rewrite Hs2, Hs1, fold_left_app.
    + apply IH.
Qed.

(** X16. A run of version 2 that ends leaves the file that one call of
    [write_csv_batch] with all the results, in the order they arrived,
    would leave: the rows appended after what the file held, below a header
    if there was no file.  When there is nothing to process the file is not
    touched: no file stays no file. *)
Theorem v2_run_artifact (h : Host) (clock : string -> Z)
  (float_repr : Z -> string) (completion : list string -> list string)
  (root : string) (csv_file : Artifact) (workers : option Z) (resume : bool)
  (run : V2.Run) :
  V2.process_pdfs h clock float_repr completion root csv_file workers resume
  = Ok run ->
  fair completion ->
  exists rs,
    V2.results h clock
      (V2.arrival completion (v2_batch_size (effective_workers h workers)) []
         (pdf_gen h root (V2.run_ledger run))) = Ok rs
    /\ V2.run_artifact run = V2.write_csv_batch float_repr csv_file rs
    /\ V2.run_stats run = fold_left update_stats rs initial_stats
    /\ (pdf_gen h root (V2.run_ledger run) = [] ->
        V2.run_artifact run = csv_file).
Proof.
  unfold V2.process_pdfs. intros Hrun Hfair.
  destruct (if resume then load_processed_csv (system h) csv_file
            else (∅, [])) as [ledger log].
  destruct (pool_error (system h) (effective_workers h workers));
    [discriminate |].
  destruct (V2.submit_loop h clock float_repr completion _ _ [] _)
    as [st | m] eqn:Hloop; [| discriminate].
  injection Hrun as <-. simpl.
  destruct (submit_loop_pending _ _ _ _ _ _ _ _ _ Hloop)
    as (rs & Hrs & Hp & Hs).
  unfold V2.pending in Hp. simpl in Hp.
  assert (Hart : match V2.loop_rows st with
                 | [] => V2.loop_file st
                 | _ :: _ =>
                     V2.write_csv_batch float_repr (V2.loop_file st)
                                        (V2.loop_rows st)
                 end = V2.written float_repr csv_file rs).
  { rewrite <- Hp. destruct (V2.loop_rows st) eqn:Hrows; [reflexivity |].
    now rewrite write_csv_batch_written. }
  exists rs. split; [exact Hrs |]. split; [| split].
  - now rewrite Hart, write_csv_batch_written.
  - exact Hs.
  - intros Hgen. rewrite Hart. rewrite Hgen in Hrs. simpl in Hrs.
    assert (Hnil : completion [] = [])
      by (apply Permutation_nil; symmetry; apply Hfair).
    rewrite Hnil in Hrs. simpl in Hrs. injection Hrs as <-. reflexivity.
Qed.

(** An empty directory and no file: version 2 leaves no file. *)
Lemma v2_run_artifact_witness :
  exists run,
    V2.process_pdfs (posix_host "/data" [] true) (fun _ => 3) pretty
                    (fun l => l) "/data" None (Some 2) true = Ok run
    /\ V2.run_artifact run = None.
Proof.
  destruct (V2.process_pdfs (posix_host "/data" [] true) (fun _ => 3) pretty
              (fun l => l) "/data" None (Some 2) true)
    as [run | m] eqn:Hrun; [| vm_compute in Hrun; discriminate].
  exists run. split; [reflexivity |].
  destruct (v2_run_artifact _ _ _ _ _ _ _ _ _ Hrun
              (fun l => Permutation_refl l)) as (rs & _ & _ & _ & Hempty).
  apply Hempty.
  replace (V2.run_ledger run)
    with (match V2.process_pdfs (posix_host "/data" [] true) (fun _ => 3)
                  pretty (fun l => l) "/data" None (Some 2) true
          with Ok r => V2.run_ledger r | Err _ => ∅ end)
    by (now rewrite Hrun).
  vm_compute. reflexivity.
Defined.

End V2Facts.

(* ===================================================================== *)
(** ** Further properties: the corpus generator *)
(* ===================================================================== *)

Module GenFacts.

Import GenPdfs.

Lemma ints_nil (s e : Z) : e <= s -> ints s e = [].
Proof.
  intros H. unfold ints. replace (Z.to_nat (e - s)) with 0%nat by lia.
  reflexivity.
Qed.

Lemma ints_cons (s e : Z) : s < e -> ints s e = s :: ints (s + 1) e.
Proof.
  intros H. unfold ints.
  replace (Z.to_nat (e - s)) with (S (Z.to_nat (e - (s + 1)))) by lia.
  cbn [seq map]. f_equal; [lia |].
  rewrite <- seq_shift, map_map. apply map_ext. intros k. lia.
Qed.

Lemma ints_app (a b c : Z) :
  a <= b -> b <= c -> ints a b ++ ints b c = ints a c.
Proof.
  intros Hab Hbc.
  remember (Z.to_nat (b - a)) as n eqn:Hn.
  revert a Hab Hn. induction n as [| n IH]; intros a Hab Hn.
  - assert (a = b) by lia. subst a. now rewrite ints_nil by lia.
  - rewrite (ints_cons a b), (ints_cons a c) by lia. simpl. f_equal.
    apply IH; lia.
Qed.

Lemma filter_ints (g s e : Z) :
  List.filter (fun i => g <=? i) (ints s e) = ints (Z.max s g) e.
Proof.
  remember (Z.to_nat (e - s)) as n eqn:Hn.
  revert s Hn. induction n as [| n IH]; intros s Hn.
  - rewrite !ints_nil by lia. reflexivity.
  - rewrite (ints_cons s e) by lia. simpl.
    destruct (g <=? s) eqn:Hg.
    + apply Z.leb_le in Hg. rewrite IH by lia.
      replace (Z.max s g) with s by lia.
      replace (Z.max (s + 1) g) with (s + 1) by lia.
      now rewrite (ints_cons s e) by lia.
    + apply Z.leb_gt in Hg. rewrite IH by lia. f_equal. lia.
Qed.

Lemma covered_app (r1 r2 : list (Z * Z)) :
  covered (r1 ++ r2) = covered r1 ++ covered r2.
Proof. unfold covered. apply flat_map_app. Qed.

(** The first [m] chunks run through the integers below [m * chunk_size],
    as long as that many chunks there are. *)
Lemma chunks_prefix (total c : Z) (m : nat) :
  0 < c -> 0 <= total ->
  (forall i : nat, (i < m)%nat -> Z.of_nat i * c < total) ->
  covered (map (fun start => (start, Z.min (start + c) total))
               (map (fun i => 0 + Z.of_nat i * c) (seq 0 m)))
  = ints 0 (Z.min (Z.of_nat m * c) total)
  /\ Forall (fun r => fst r < snd r /\ snd r - fst r <= c /\ snd r <= total)
            (map (fun start => (start, Z.min (start + c) total))
                 (map (fun i => 0 + Z.of_nat i * c) (seq 0 m))).
Proof.
  intros Hc Ht. induction m as [| m IH]; intros Hlt.
  - split; [| constructor]. simpl. now rewrite ints_nil by lia.
  - destruct IH as (IHc & IHf); [intros i Hi; apply Hlt; lia |].
    pose proof (Hlt m ltac:(lia)) as Hm.
    rewrite seq_S, !map_app. simpl. split.
    + rewrite covered_app, IHc. unfold covered. simpl. rewrite app_nil_r.
      replace (Z.min (Z.of_nat m * c) total) with (Z.of_nat m * c) by lia.
      replace (Z.min (Z.of_nat (S m) * c) total)
        with (Z.min (Z.of_nat m * c + c) total) by lia.
      apply ints_app; lia.
    + apply Forall_app. split; [exact IHf |].
      constructor; [| constructor]. simpl. lia.
Qed.

Lemma chunk_ranges_tile_aux (total chunk_size : Z) :
  0 < chunk_size -> 0 <= total ->
  exists ranges,
    chunk_ranges total chunk_size = Ok ranges
    /\ covered ranges = ints 0 total
    /\ Forall (fun r => fst r < snd r /\ snd r - fst r <= chunk_size
                        /\ snd r <= total) ranges
    /\ Z.of_nat (List.length ranges)
       = (total + chunk_size - 1) / chunk_size.
Proof.
  intros Hc Ht.
  unfold chunk_ranges, py_range.
  replace (chunk_size =? 0) with false by (symmetry; apply Z.eqb_neq; lia).
  replace (0 <? chunk_size) with true by (symmetry; apply Z.ltb_lt; lia).
  eexists. split; [reflexivity |].
  destruct (0 <? total) eqn:Hpos.
  - apply Z.ltb_lt in Hpos.
    replace (total - 0 - 1) with (total - 1) by lia.
    pose proof (Z.mul_div_le (total - 1) chunk_size Hc) as Hle.
    pose proof (Z.mul_succ_div_gt (total - 1) chunk_size Hc) as Hgt.
    pose proof (Z.div_pos (total - 1) chunk_size ltac:(lia) Hc) as Hq.
    set (q := (total - 1) / chunk_size) in *.
    destruct (chunks_prefix total chunk_size (Z.to_nat (q + 1)) Hc Ht)
      as (Hcov & Hall).
    { intros i Hi. nia. }
    split; [| split].
    + rewrite Hcov. f_equal. nia.
    + exact Hall.
    + rewrite !length_map, length_seq.
      replace (total + chunk_size - 1) with (total - 1 + 1 * chunk_size)
        by lia.
      rewrite Z.div_add by lia. fold q. lia.
  - apply Z.ltb_ge in Hpos. assert (total = 0) by lia. subst total.
    simpl. split; [reflexivity |]. split; [constructor |].
    rewrite Z.div_small by lia. reflexivity.
Qed.

(** X17. [chunk_ranges]: a zero chunk size raises; with a positive chunk
    size the ranges tile the indices from 0 to [total], in order, with no
    gap and no overlap, none of them empty or longer than the chunk size,
    and there are [ceil(total / chunk_size)] of them (none when [total] is
    0). *)
Theorem chunk_ranges_tile (total chunk_size : Z) :
  0 < chunk_size -> 0 <= total ->
  chunk_ranges total 0 = Err "range() arg 3 must not be zero"
  /\ exists ranges,
       chunk_ranges total chunk_size = Ok ranges
       /\ covered ranges = ints 0 total
       /\ Forall (fun r => fst r < snd r /\ snd r - fst r <= chunk_size
                           /\ snd r <= total) ranges
       /\ Z.of_nat (List.length ranges)
          = (total + chunk_size - 1) / chunk_size.
Proof.
  intros Hc Ht. split; [reflexivity |].
  now apply chunk_ranges_tile_aux.
Qed.

(** 2500 files in chunks of 1000: three ranges, the last of 500. *)
Lemma chunk_ranges_tile_witness :
  chunk_ranges 2500 1000 = Ok [(0, 1000); (1000, 2000); (2000, 2500)]
  /\ covered [(0, 1000); (1000, 2000); (2000, 2500)] = ints 0 2500.
Proof.
  destruct (chunk_ranges_tile 2500 1000 ltac:(lia) ltac:(lia))
    as (_ & ranges & Hr & Hcov & _).
  assert (Hv : chunk_ranges 2500 1000
               = Ok [(0, 1000); (1000, 2000); (2000, 2500)])
    by (vm_compute; reflexivity).
  split; [exact Hv |].
  rewrite Hv in Hr. injection Hr as <-. exact Hcov.
Defined.

Lemma covered_plan (ranges : list (Z * Z)) (g : Z) :
  Forall (fun r => fst r < snd r) ranges ->
  covered (plan ranges g) = List.filter (fun i => g <=? i) (covered ranges)
  /\ Forall (fun r => fst r < snd r /\ g <= fst r) (plan ranges g).
Proof.
  induction 1 as [| [s e] ranges Hr _ (IHc & IHf)]; simpl in *.
  - split; [reflexivity | constructor].
  - unfold covered in *. simpl. rewrite List.filter_app, filter_ints.
    destruct (e <=? g) eqn:Heg.
    + apply Z.leb_le in Heg. rewrite ints_nil by lia. simpl.
      split; [exact IHc | exact IHf].
    + apply Z.leb_gt in Heg. simpl. rewrite IHc. split; [reflexivity |].
      constructor; [simpl; lia | exact IHf].
Qed.

(** X18. Resuming the generator: of the ranges of [chunk_ranges], those
    that end at or below [generated_total] are left out and the one that
    straddles it is cut; what is submitted runs through exactly the indices
    from [generated_total] to [total], each once and in order, and no
    submitted range is empty. *)
Theorem plan_covers_the_rest (total chunk_size generated_total : Z)
  (ranges : list (Z * Z)) :
  0 < chunk_size -> 0 <= total -> 0 <= generated_total ->
  chunk_ranges total chunk_size = Ok ranges ->
  covered (plan ranges generated_total) = ints generated_total total
  /\ Forall (fun r => fst r < snd r /\ generated_total <= fst r)
            (plan ranges generated_total).
Proof.
  intros Hc Ht Hg Hranges.
  destruct (chunk_ranges_tile_aux total chunk_size Hc Ht)
    as (ranges' & Hr & Hcov & Hall & _).
  rewrite Hranges in Hr. injection Hr as <-.
  destruct (covered_plan ranges generated_total) as (Hp & Hf).
  { eapply Forall_impl; [exact Hall |]. intros r (Hlt & _). exact Hlt. }
  split; [| exact Hf].
  rewrite Hp, Hcov, filter_ints. f_equal. lia.
Qed.

(** 2500 files in chunks of 1000, 1200 of them made: the first range is
    left out, the second starts at 1200. *)
Lemma plan_covers_the_rest_witness :
  plan [(0, 1000); (1000, 2000); (2000, 2500)] 1200
  = [(1200, 2000); (2000, 2500)]
  /\ covered (plan [(0, 1000); (1000, 2000); (2000, 2500)] 1200)
     = ints 1200 2500.
Proof.
  split; [reflexivity |].
  apply (plan_covers_the_rest 2500 1000 1200
           [(0, 1000); (1000, 2000); (2000, 2500)]); try lia.
  vm_compute. reflexivity.
Defined.

(** *** [worker_generate] *)

Lemma sizes_failures_length (outs : list (PyResult Z)) :
  (List.length (sizes outs) + List.length (failures outs))%nat
  = List.length outs.
Proof.
  unfold sizes, failures.
  induction outs as [| [b | e] outs IH]; simpl.
  - reflexivity.
  - f_equal. exact IH.
  - rewrite Nat.add_succ_r. f_equal. exact IH.
Qed.

Lemma sizes_ok (b : Z) (outs : list (PyResult Z)) :
  sizes (Ok b :: outs) = b :: sizes outs.
Proof. reflexivity. Qed.

Lemma sizes_err (e : string) (outs : list (PyResult Z)) :
  sizes (Err e :: outs) = sizes outs.
Proof. reflexivity. Qed.

Lemma failures_ok (b : Z) (outs : list (PyResult Z)) :
  failures (Ok b :: outs) = failures outs.
Proof. reflexivity. Qed.

Lemma failures_err (e : string) (outs : list (PyResult Z)) :
  failures (Err e :: outs) = e :: failures outs.
Proof. reflexivity. Qed.

(** The loop, when it gets to its end, has tried every index. *)
Lemma worker_loop_tally (d : Disk) (out_dir prefix : string) (padding : Z)
  (files_per_dir min_pages max_pages : Z) (indices : list Z) (t t' : Tally) :
  worker_loop d out_dir prefix padding files_per_dir min_pages max_pages
              indices t = Ok t' ->
  let outs := map (outcome d out_dir prefix padding files_per_dir) indices in
  t' = {| generated := generated t + Z.of_nat (List.length (sizes outs));
          total_bytes := total_bytes t + sum_bytes (sizes outs);
          warnings := warnings t ++ failures outs |}.
Proof.
  intros Hrun outs. subst outs. revert t Hrun.
  induction indices as [| idx indices IH]; intros [g b w] Hrun.
  - simpl in Hrun. injection Hrun as <-. simpl.
    rewrite !Z.add_0_r, app_nil_r. reflexivity.
  - cbn [worker_loop] in Hrun.
    destruct (files_per_dir =? 0); [discriminate |].
    destruct (mkdir d _) as [[] | m]; [| discriminate].
    unfold format_name in Hrun.
    destruct (padding <? 0); [discriminate |].
    unfold randint in Hrun.
    destruct (max_pages <? min_pages); [discriminate |].
    apply IH in Hrun. rewrite Hrun. clear Hrun IH.
    cbn [map].
    fold (outcome d out_dir prefix padding files_per_dir idx).
    destruct (outcome d out_dir prefix padding files_per_dir idx)
      as [sz | e].
    + rewrite sizes_ok, failures_ok.
      cbn [generated total_bytes warnings List.length].
      unfold sum_bytes. cbn [fold_right].
      f_equal; lia.
    + rewrite sizes_err, failures_err.
      cbn [generated total_bytes warnings].
      f_equal. now rewrite <- app_assoc.
Qed.

(** It gets there when nothing outside the [try] raises. *)
Lemma worker_loop_ends (d : Disk) (out_dir prefix : string) (padding : Z)
  (files_per_dir min_pages max_pages : Z) (indices : list Z) (t : Tally) :
  files_per_dir <> 0 -> min_pages <= max_pages -> 0 <= padding ->
  (forall p, mkdir d p = Ok tt) ->
  exists t',
    worker_loop d out_dir prefix padding files_per_dir min_pages max_pages
                indices t = Ok t'.
Proof.
  intros Hf Hm Hp Hmk. revert t.
  induction indices as [| idx indices IH]; intros t.
  - now eexists.
  - cbn [worker_loop].
    replace (files_per_dir =? 0) with false
      by (symmetry; now apply Z.eqb_neq).
    rewrite Hmk. unfold format_name, randint.
    replace (padding <? 0) with false by (symmetry; apply Z.ltb_ge; lia).
    replace (max_pages <? min_pages) with false
      by (symmetry; apply Z.ltb_ge; lia).
    apply IH.
Qed.

(** X19. [worker_generate], whenever it returns, has tried every index of
    its range once: [generated] counts the files that could be made,
    [total_bytes] adds up their sizes, and a file that could not be made
    costs a warning and nothing else: the loop goes on, and the files made
    and the warnings are as many as the indices. *)
Theorem worker_generate_tally (d : Disk) (start_idx end_idx : Z)
  (out_dir prefix : string) (padding : Z)
  (files_per_dir min_pages max_pages : Z) (t : Tally) :
  worker_generate d start_idx end_idx out_dir prefix padding files_per_dir
                  min_pages max_pages = Ok t ->
  let outs := map (outcome d out_dir prefix padding files_per_dir)
                  (ints start_idx end_idx) in
  generated t = Z.of_nat (List.length (sizes outs))
  /\ total_bytes t = sum_bytes (sizes outs)
  /\ warnings t = failures outs
  /\ generated t + Z.of_nat (List.length (warnings t))
     = Z.max 0 (end_idx - start_idx).
Proof.
  intros Hrun outs. unfold worker_generate in Hrun.
  apply worker_loop_tally in Hrun. fold outs in Hrun. subst t. simpl.
  repeat split.
  pose proof (sizes_failures_length outs) as Hlen.
  unfold outs in Hlen at 3. rewrite length_map in Hlen.
  unfold ints in Hlen. rewrite length_map, length_seq in Hlen.
  lia.
Qed.

(** Indices 0 to 4 on the example disk: four files made, one warning. *)
Lemma worker_generate_tally_witness :
  exists t,
    worker_generate MoreExamples.small_disk 0 5 "out" "page_" 7 1000 1 10
    = Ok t
    /\ generated t = 4 /\ total_bytes t = 4000
    /\ warnings t = ["disk full"].
Proof.
  destruct (worker_generate MoreExamples.small_disk 0 5 "out" "page_" 7 1000
              1 10) as [t | m] eqn:Ht; [| vm_compute in Ht; discriminate].
  destruct (worker_generate_tally MoreExamples.small_disk 0 5 "out" "page_"
              7 1000 1 10 t Ht) as (Hg & Hb & Hw & _).
  exists t. split; [reflexivity |].
  rewrite Hg, Hb, Hw. vm_compute. repeat split; reflexivity.
Defined.



End GenFacts.

(* ===================================================================== *)
(** ** Further properties: when a run ends, and what an idle run leaves *)
(* ===================================================================== *)

Module RunEdges.

Import Inspector Discovery Csv Writer Pipeline Examples Derived.
Import PipelineFacts.

(** X22. A run of version 6 that finds nothing to process and finds a
    file leaves the file exactly as it was: no header is added, no row is
    added or changed. *)
Theorem idle_run_leaves_file_unchanged (h : Host)
  (completion : list string -> list string) (root : string)
  (lines : list Line) (workers : option Z) (resume : bool) (run : Run) :
  process_pdfs h completion root (Some lines) workers resume = Ok run ->
  fair completion ->
  pdf_gen h root (run_ledger run) = [] ->
  run_artifact run = Some lines.
Proof.
  intros Hrun Hfair Hgen.
  apply process_pdfs_inv in Hrun
    as (_ & _ & _ & rs & Hrs & _ & _ & Hart).
  rewrite Hgen in Hrs.
  assert (Hnil : completion [] = [])
    by (apply Permutation_nil; symmetry; apply Hfair).
  rewrite Hnil in Hrs. simpl in Hrs. injection Hrs as <-.
  rewrite Hart. simpl. now rewrite app_nil_r.
Qed.

(** The file under [/data], already recorded: the resumed run changes
    nothing. *)
Lemma idle_run_leaves_file_unchanged_witness :
  exists run,
    process_pdfs data_host (fun l => l) "/data"
                 (Some [Rec header; Rec (row_fields row_a)]) None true
    = Ok run
    /\ run_artifact run = Some [Rec header; Rec (row_fields row_a)].
Proof.
  destruct (process_pdfs data_host (fun l => l) "/data"
              (Some [Rec header; Rec (row_fields row_a)]) None true)
    as [run | m] eqn:Hrun; [| vm_compute in Hrun; discriminate].
  exists run. split; [reflexivity |].
  apply (idle_run_leaves_file_unchanged _ _ _ _ _ _ _ Hrun).
  - intros l. apply Permutation_refl.
  - replace (run_ledger run)
      with (match process_pdfs data_host (fun l => l) "/data"
                    (Some [Rec header; Rec (row_fields row_a)]) None true
            with Ok r => run_ledger r | Err _ => ∅ end)
      by (now rewrite Hrun).
    vm_compute. reflexivity.
Defined.

End RunEdges.
